(** * The sampling timer of pkg/sentry/kernel/time (time.go)

    A shallow embedding of [Time], [Setting] and [Timer] and the properties
    of their operations.  Go's [int64] and [uint64] are integers of [Z] with
    the wrap-around of every operation written out; the timer engine is a
    state-and-panic monad over a machine that holds the timer, the state of
    its collaborators (clock, listener, callbacks) and a log of the calls it
    makes on them. *)

From Stdlib Require Import ZArith Lia List Bool String.
Import ListNotations.
Local Open Scope Z_scope.

(** ** Machine integers *)

Module Int64.

Definition MinInt64 : Z := - 2 ^ 63.
Definition MaxInt64 : Z := 2 ^ 63 - 1.
Definition modulus : Z := 2 ^ 64.

(** The values an [int64] holds, and the ones a [uint64] holds. *)
Definition in_int64 (z : Z) : Prop := MinInt64 <= z <= MaxInt64.
Definition in_uint64 (z : Z) : Prop := 0 <= z < modulus.

(** Conversion of an integer to [int64]: two's complement wrap-around. *)
Definition int64 (z : Z) : Z := (z + 2 ^ 63) mod modulus - 2 ^ 63.

(** Conversion of an integer to [uint64]. *)
Definition uint64 (z : Z) : Z := z mod modulus.

(** Go's [+], [-] and [*] on [int64]. *)
Definition add (a b : Z) : Z := int64 (a + b).
Definition sub (a b : Z) : Z := int64 (a - b).
Definition mul (a b : Z) : Z := int64 (a * b).

(** Go's [+], [*] and [/] on [uint64]. *)
Definition uadd (a b : Z) : Z := uint64 (a + b).
Definition umul (a b : Z) : Z := uint64 (a * b).
Definition udiv (a b : Z) : Z := a / b.

End Int64.

Import Int64.

(** ** Time and Duration *)

(** [time.Duration] is an [int64] count of nanoseconds. *)
Definition Duration : Type := Z.

Record Time : Type := mkTime { ns : Z }.

Definition MinTime : Time := mkTime MinInt64.
Definition MaxTime : Time := mkTime MaxInt64.
Definition ZeroTime : Time := mkTime 0.

Definition MinDuration : Duration := MinInt64.
Definition MaxDuration : Duration := MaxInt64.

(** [time.Second.Nanoseconds()] and [time.Nanosecond]. *)
Definition Second_Nanoseconds : Z := 1000000000.
Definition Nanosecond : Duration := 1.

Definition wf_Time (t : Time) : Prop := in_int64 (ns t).

Definition FromNanoseconds (n : Z) : Time := mkTime n.

Definition FromSeconds (s : Z) : Time :=
  if s >? Z.quot MaxInt64 Second_Nanoseconds then MaxTime
  else mkTime (mul s 1000000000).

Definition FromUnix (s n : Z) : Time :=
  if s >? Z.quot MaxInt64 Second_Nanoseconds then MaxTime
  else
    let t := mul s 1000000000 in
    if t >? sub MaxInt64 n then MaxTime
    else mkTime (add t n).

(** [linux.Timespec] and [linux.Itimerspec].  Their helpers live in another
    package: [ToNsecCapped] and [ToDuration] are taken as parameters by the
    functions that call them. *)
Record Timespec : Type := mkTimespec { Sec : Z; Nsec : Z }.

Record Itimerspec : Type := mkItimerspec { Interval : Timespec; Value : Timespec }.

Definition FromTimespec (ToNsecCapped : Timespec -> Z) (ts : Timespec) : Time :=
  mkTime (ToNsecCapped ts).

Definition Nanoseconds (t : Time) : Z := ns t.
Definition Microseconds (t : Time) : Z := Z.quot (ns t) 1000.
Definition Seconds (t : Time) : Z := Z.quot (Nanoseconds t) Second_Nanoseconds.
Definition Unix (t : Time) : Z * Z :=
  (Z.quot (ns t) 1000000000, Z.rem (ns t) 1000000000).

(** [Duration.Nanoseconds()]. *)
Definition Duration_Nanoseconds (d : Duration) : Z := d.

Definition Add (t : Time) (d : Duration) : Time :=
  if (ns t >? 0) && (Duration_Nanoseconds d >? sub MaxInt64 (ns t)) then MaxTime
  else if (ns t <? 0) && (Duration_Nanoseconds d <? sub MinInt64 (ns t)) then MinTime
  else mkTime (add (ns t) (Duration_Nanoseconds d)).

Definition AddTime (t u : Time) : Time := Add t (ns u).

Definition Equal (t u : Time) : bool := ns t =? ns u.
Definition Before (t u : Time) : bool := ns t <? ns u.
Definition After (t u : Time) : bool := ns t >? ns u.

Definition Sub (t u : Time) : Duration :=
  let dur := mul (sub (ns t) (ns u)) Nanosecond in
  if Equal (Add u dur) t then dur
  else if Before t u then MinDuration
  else MaxDuration.

Definition IsMin (t : Time) : bool := ns t =? ns MinTime.
Definition IsZero (t : Time) : bool := ns t =? ns ZeroTime.

(** ** Setting *)

Record Setting : Type := mkSetting {
  Enabled : bool;
  Next : Time;
  Period : Duration
}.

(** The zero value [Setting{}]. *)
Definition Setting_zero : Setting := mkSetting false ZeroTime 0.

Definition set_Enabled (b : bool) (s : Setting) : Setting :=
  mkSetting b (Next s) (Period s).

Definition set_Next (t : Time) (s : Setting) : Setting :=
  mkSetting (Enabled s) t (Period s).

(** The fields are machine integers, and [Period] obeys the invariant the
    type documents: [Period >= 0]. *)
Definition wf_Setting (s : Setting) : Prop :=
  wf_Time (Next s) /\ in_int64 (Period s).

Definition Period_invariant (s : Setting) : Prop := 0 <= Period s.

(** A Go [error]: [nil], or the errno of a [linuxerr] error. *)
Definition error : Type := option Z.

(** [linuxerr.EINVAL], by its Linux errno. *)
Definition EINVAL : Z := 22.

Definition SettingFromSpecAt (value interval : Duration) (now : Time)
  : Setting * error :=
  if value <? 0 then (Setting_zero, Some EINVAL)
  else if value =? 0 then (mkSetting false ZeroTime interval, None)
  else (mkSetting true (Add now value) interval, None).

Definition SettingFromAbsSpec (value : Time) (interval : Duration)
  : Setting * error :=
  if Before value ZeroTime then (Setting_zero, Some EINVAL)
  else if IsZero value then (mkSetting false ZeroTime interval, None)
  else (mkSetting true value interval, None).

Definition SpecFromSetting (now : Time) (s : Setting) : Duration * Duration :=
  if negb (Enabled s) then (0, Period s)
  else (Sub (Next s) now, Period s).

Definition At (s : Setting) (now : Time) : Setting * Z :=
  if negb (Enabled s) then (s, 0)
  else if After (Next s) now then (s, 0)
  else if Period s =? 0 then (set_Enabled false s, 1)
  else
    let exp :=
      uadd 1 (udiv (uint64 (Duration_Nanoseconds (Sub now (Next s))))
                   (uint64 (Period s))) in
    (set_Next (Add (Next s) (int64 (umul (uint64 (Period s)) exp))) s, exp).

(** The result of advancing an enabled periodic setting that is due, were
    no arithmetic to overflow: the count of expirations, and the setting
    moved by that many periods. *)
Definition At_periodic_post (s : Setting) (now : Time) (r : Setting * Z) : Prop :=
  let exp := 1 + (ns now - ns (Next s)) / Period s in
  snd r = exp /\
  ns (Next (fst r)) = ns (Next s) + exp * Period s /\
  Enabled (fst r) = true /\
  Period (fst r) = Period s.

(** ** The timer engine *)

Inductive timerPauseState : Type :=
| timerUnpaused
| timerPaused
| timerDestroyed.

Definition timerPauseState_eqb (a b : timerPauseState) : bool :=
  match a, b with
  | timerUnpaused, timerUnpaused => true
  | timerPaused, timerPaused => true
  | timerDestroyed, timerDestroyed => true
  | _, _ => false
  end.

(** The channel [t.events]: [nil] until [init], open, or closed. *)
Inductive Chan : Type :=
| chan_nil
| chan_open
| chan_closed.

(** What the timer does to its collaborators, in the order it does it. *)
Inductive Event : Type :=
| EvNotify (exp : Z) (s : Setting)
| EvCallback
| EvKickerReset (d : Duration)
| EvKickerStop
| EvRegister (c : nat)
| EvUnregister (c : nat)
| EvGo
| EvClose.

Section Engine.

(** The state of everything outside the timer that its collaborators read
    and write: the clocks, the listener, the callbacks passed to SwapAnd. *)
Context {W : Type}.

(** A [Clock] interface value.  [clock_id] is its identity, which is what
    [!=] on two interface values compares. *)
Record Clock : Type := mkClock {
  clock_id : nat;
  Now : W -> Time * W;
  WallTimeUntil : Time -> Time -> W -> Duration * W;
  EventRegister : W -> error * W;
  EventUnregister : W -> W
}.

(** A [Listener] interface value; [exp] is a [uint64]. *)
Record Listener : Type := mkListener {
  NotifyTimer : Z -> Setting -> W -> (Setting * bool) * W
}.

(** [kicker] is [nil] ([None]) or a [*time.Timer], which is armed with a
    duration or is stopped or has fired ([Some None]). *)
Record Timer : Type := mkTimer {
  clock : Clock;
  listener : Listener;
  setting : Setting;
  pauseState : timerPauseState;
  kicker : option (option Duration);
  events : Chan
}.

Record Machine : Type := mkMachine {
  timer : Timer;
  world : W;
  trace : list Event
}.

(** A call returns, or panics; the machine is the one it leaves behind. *)
Inductive Result (A : Type) : Type :=
| Done (a : A) (m : Machine)
| Panic (msg : string) (m : Machine).

Arguments Done {A} a m.
Arguments Panic {A} msg m.

Definition machine_of {A : Type} (r : Result A) : Machine :=
  match r with
  | Done _ m => m
  | Panic _ m => m
  end.

Definition M (A : Type) : Type := Machine -> Result A.

Definition ret {A : Type} (a : A) : M A := fun m => Done a m.

Definition bind {A B : Type} (c : M A) (k : A -> M B) : M B :=
  fun m =>
    match c m with
    | Done a m' => k a m'
    | Panic msg m' => Panic msg m'
    end.

Definition panic {A : Type} (msg : string) : M A := fun m => Panic msg m.

Notation "x <- c ;; k" := (bind c (fun x => k))
  (at level 61, c at next level, right associativity).
Notation "c ;;; k" := (bind c (fun _ => k))
  (at level 61, right associativity).

Definition get_timer : M Timer := fun m => Done (timer m) m.

Definition put_timer (t : Timer) : M unit :=
  fun m => Done tt (mkMachine t (world m) (trace m)).

(** Run a collaborator on the world. *)
Definition extern {A : Type} (f : W -> A * W) : M A :=
  fun m => let (a, w) := f (world m) in Done a (mkMachine (timer m) w (trace m)).

Definition log (e : Event) : M unit :=
  fun m => Done tt (mkMachine (timer m) (world m) (trace m ++ [e])).

Definition set_setting (s : Setting) : M unit :=
  t <- get_timer ;;
  put_timer (mkTimer (clock t) (listener t) s (pauseState t) (kicker t) (events t)).

Definition set_pauseState (p : timerPauseState) : M unit :=
  t <- get_timer ;;
  put_timer (mkTimer (clock t) (listener t) (setting t) p (kicker t) (events t)).

Definition set_kicker (k : option (option Duration)) : M unit :=
  t <- get_timer ;;
  put_timer (mkTimer (clock t) (listener t) (setting t) (pauseState t) k (events t)).

Definition set_events (c : Chan) : M unit :=
  t <- get_timer ;;
  put_timer (mkTimer (clock t) (listener t) (setting t) (pauseState t) (kicker t) c).

Definition set_clock (c : Clock) : M unit :=
  t <- get_timer ;;
  put_timer (mkTimer c (listener t) (setting t) (pauseState t) (kicker t) (events t)).

(** [t.kicker.Reset(d)] and [t.kicker.Stop()]; both dereference [t.kicker]. *)
Definition kicker_Reset (d : Duration) : M unit :=
  t <- get_timer ;;
  match kicker t with
  | None => panic "nil pointer dereference"
  | Some _ => set_kicker (Some (Some d)) ;;; log (EvKickerReset d)
  end.

Definition kicker_Stop : M unit :=
  t <- get_timer ;;
  match kicker t with
  | None => panic "nil pointer dereference"
  | Some _ => set_kicker (Some None) ;;; log EvKickerStop
  end.

(** [t.listener.NotifyTimer(exp, s)]. *)
Definition notify (exp : Z) (s : Setting) : M (Setting * bool) :=
  t <- get_timer ;;
  log (EvNotify exp s) ;;;
  extern (NotifyTimer (listener t) exp s).

Definition clock_Now (c : Clock) : M Time := extern (Now c).

Definition clock_EventRegister (c : Clock) : M error :=
  log (EvRegister (clock_id c)) ;;; extern (EventRegister c).

Definition clock_EventUnregister (c : Clock) : M unit :=
  log (EvUnregister (clock_id c)) ;;;
  extern (fun w => (tt, EventUnregister c w)).

(** [Timer.Clock]: the clock the timer holds. *)
Definition Timer_Clock : M Clock := t <- get_timer ;; ret (clock t).

Definition SettingFromSpec (value interval : Duration) (c : Clock)
  : M (Setting * error) :=
  now <- clock_Now c ;; ret (SettingFromSpecAt value interval now).

Definition SettingFromItimerspec (ToNsecCapped : Timespec -> Z)
  (ToDuration : Timespec -> Duration) (its : Itimerspec) (abs : bool) (c : Clock)
  : M (Setting * error) :=
  if abs then
    ret (SettingFromAbsSpec (FromTimespec ToNsecCapped (Value its))
           (ToDuration (Interval its)))
  else SettingFromSpec (ToDuration (Value its)) (ToDuration (Interval its)) c.

(** [WallRateClock.WallTimeUntil]. *)
Definition WallRateClock_WallTimeUntil (t now : Time) (w : W) : Duration * W :=
  (Sub t now, w).

(** [NoClockEvents]: a clock that generates no events. *)
Definition NoClockEvents_EventRegister (w : W) : error * W := (None, w).

Definition NoClockEvents_EventUnregister (w : W) : W := w.

(** [ClockEventsQueue.EventRegister]; the embedded [waiter.Queue] and its
    registration are a parameter. *)
Definition ClockEventsQueue_EventRegister (Queue_EventRegister : W -> W) (w : W)
  : error * W :=
  (None, Queue_EventRegister w).

(** [ChannelNotifier]: a listener that sends on a channel of capacity one
    unless it is full, given by how the world shows and fills the channel. *)
Definition ChannelNotifier (full : W -> bool) (send : W -> W) : Listener :=
  mkListener (fun _ _ w => ((Setting_zero, false), if full w then w else send w)).

Definition init : M unit :=
  t <- get_timer ;;
  match kicker t with
  | Some _ => ret tt
  | None =>
      set_kicker (Some (Some 0)) ;;;
      set_events chan_open ;;;
      err <- clock_EventRegister (clock t) ;;
      match err with
      | Some _ => panic "EventRegister failed"
      | None => log EvGo
      end
  end.

(** [NewTimer]: the machine of a fresh timer in the world [w]. *)
Definition NewTimer (c : Clock) (l : Listener) (w : W) : Result unit :=
  init (mkMachine (mkTimer c l Setting_zero timerUnpaused None chan_nil) w []).

Definition close_events : M unit :=
  t <- get_timer ;;
  match events t with
  | chan_open => set_events chan_closed ;;; log EvClose
  | chan_nil => panic "close of nil channel"
  | chan_closed => panic "close of closed channel"
  end.

Definition Destroy : M unit :=
  t <- get_timer ;;
  set_setting (set_Enabled false (setting t)) ;;;
  set_pauseState timerDestroyed ;;;
  kicker_Stop ;;;
  clock_EventUnregister (clock t) ;;;
  close_events.

Definition resetKickerLocked (now : Time) : M unit :=
  t <- get_timer ;;
  if Enabled (setting t) then
    d <- extern (WallTimeUntil (clock t) (Next (setting t)) now) ;;
    kicker_Reset d
  else ret tt.

(** The clock may have been replaced between the reading taken before the
    mutex is held and the locking: then the time is read again. *)
Definition resample (unlockedClock : Clock) (now : Time) : M Time :=
  t <- get_timer ;;
  if negb (Nat.eqb (clock_id (clock t)) (clock_id unlockedClock))
  then clock_Now (clock t)
  else ret now.

(** Advance the setting to [now] and tell the listener, which may replace
    it: the part Tick and Get share. *)
Definition advance_and_notify (now : Time) : M Setting :=
  t <- get_timer ;;
  let (s, exp) := At (setting t) now in
  set_setting s ;;;
  (if exp >? 0 then
     r <- notify exp s ;;
     if snd r then set_setting (fst r) else ret tt
   else ret tt) ;;;
  ret s.

(** Tick from the locking of [t.mu] on. *)
Definition Tick_locked (unlockedClock : Clock) (now : Time) : M unit :=
  t <- get_timer ;;
  if negb (timerPauseState_eqb (pauseState t) timerUnpaused) then ret tt
  else
    now <- resample unlockedClock now ;;
    advance_and_notify now ;;;
    resetKickerLocked now.

Definition Tick : M unit :=
  unlockedClock <- Timer_Clock ;;
  now <- clock_Now unlockedClock ;;
  Tick_locked unlockedClock now.

Definition Pause : M unit :=
  t <- get_timer ;;
  if negb (timerPauseState_eqb (pauseState t) timerUnpaused) then ret tt
  else
    set_pauseState timerPaused ;;;
    match kicker t with
    | Some _ => kicker_Stop
    | None => ret tt
    end.

Definition Resume : M unit :=
  t <- get_timer ;;
  if negb (timerPauseState_eqb (pauseState t) timerPaused) then ret tt
  else
    set_pauseState timerUnpaused ;;;
    init ;;;
    kicker_Reset 0.

Definition Get_locked (unlockedClock : Clock) (now : Time) : M (Time * Setting) :=
  t <- get_timer ;;
  if negb (timerPauseState_eqb (pauseState t) timerUnpaused)
  then panic "Timer.Get called on Timer in pause state"
  else
    now <- resample unlockedClock now ;;
    s <- advance_and_notify now ;;
    resetKickerLocked now ;;;
    ret (now, s).

Definition Get : M (Time * Setting) :=
  unlockedClock <- Timer_Clock ;;
  now <- clock_Now unlockedClock ;;
  Get_locked unlockedClock now.

(** The callback [f] of SwapAnd: [nil], or a function that runs on the
    world (it may not call the timer). *)
Definition Callback : Type := option (W -> W).

Definition run_callback (f : Callback) : M unit :=
  match f with
  | Some g => log EvCallback ;;; extern (fun w => (tt, g w))
  | None => ret tt
  end.

Definition SwapAnd_locked (unlockedClock : Clock) (now : Time)
  (s : Setting) (f : Callback) : M (Time * Setting) :=
  t <- get_timer ;;
  if negb (timerPauseState_eqb (pauseState t) timerUnpaused)
  then panic "Timer.SwapAnd called on Timer in pause state"
  else
    now <- resample unlockedClock now ;;
    let (oldS, oldExp) := At (setting t) now in
    (if oldExp >? 0 then notify oldExp oldS ;;; ret tt else ret tt) ;;;
    run_callback f ;;;
    let (newS, newExp) := At s now in
    set_setting newS ;;;
    (if newExp >? 0 then
       r <- notify newExp newS ;;
       if snd r then set_setting (fst r) else ret tt
     else ret tt) ;;;
    resetKickerLocked now ;;;
    ret (now, oldS).

Definition SwapAnd (s : Setting) (f : Callback) : M (Time * Setting) :=
  unlockedClock <- Timer_Clock ;;
  now <- clock_Now unlockedClock ;;
  SwapAnd_locked unlockedClock now s f.

Definition Swap (s : Setting) : M (Time * Setting) := SwapAnd s None.

Definition SetClock (c : Clock) (s : Setting) : M unit :=
  now <- (if Enabled s then clock_Now c else ret ZeroTime) ;;
  set_setting s ;;;
  oldC <- Timer_Clock ;;
  (if negb (Nat.eqb (clock_id oldC) (clock_id c)) then
     clock_EventUnregister oldC ;;;
     clock_EventRegister c ;;;
     set_clock c
   else ret tt) ;;;
  resetKickerLocked now.

(** What wakes the Timer goroutine. *)
Inductive Wakeup : Type :=
| KickerFired
| EventReceived
| EventsClosed.

(** One turn of the loop of [runGoroutine]; [false] when it returns. *)
Definition runGoroutine_turn (w : Wakeup) : M bool :=
  match w with
  | EventsClosed => ret false
  | KickerFired | EventReceived => Tick ;;; ret true
  end.

(** The public methods, as calls made on a timer one after the other. *)
Inductive Call : Type :=
| CallTick
| CallGet
| CallSwap (s : Setting)
| CallSwapAnd (s : Setting) (f : Callback)
| CallPause
| CallResume
| CallDestroy
| CallSetClock (c : Clock) (s : Setting).

Definition call (c : Call) : M unit :=
  match c with
  | CallTick => Tick
  | CallGet => Get ;;; ret tt
  | CallSwap s => Swap s ;;; ret tt
  | CallSwapAnd s f => SwapAnd s f ;;; ret tt
  | CallPause => Pause
  | CallResume => Resume
  | CallDestroy => Destroy
  | CallSetClock c s => SetClock c s
  end.

(** A panic ends the program: the calls after it are not made. *)
Fixpoint calls (cs : list Call) : M unit :=
  match cs with
  | [] => ret tt
  | c :: cs' => call c ;;; calls cs'
  end.

(** The calls a destroyed timer admits. *)
Definition valid_on_destroyed (c : Call) : bool :=
  match c with
  | CallTick | CallPause | CallResume => true
  | _ => false
  end.

(** The calls that do nothing on a paused timer. *)
Definition valid_on_paused (c : Call) : bool :=
  match c with
  | CallTick | CallPause => true
  | _ => false
  end.

Definition is_Destroy (c : Call) : bool :=
  match c with
  | CallDestroy => true
  | _ => false
  end.

(** The state [init] sets up: the kicker is allocated and the channel of
    events is open. *)
Definition initialised (t : Timer) : Prop :=
  kicker t <> None /\ events t = chan_open.

(** The expirations handed to the listener, in order. *)
Definition notifications (tr : list Event) : list (Z * Setting) :=
  flat_map (fun e => match e with EvNotify exp s => [(exp, s)] | _ => [] end) tr.

Definition notify_positive (e : Event) : Prop :=
  match e with
  | EvNotify exp _ => 0 < exp
  | _ => True
  end.

Definition is_notify (e : Event) : bool :=
  match e with
  | EvNotify _ _ => true
  | _ => false
  end.

(** A computation only adds to the log, and what it adds satisfies [P]. *)
Definition emits (P : Event -> Prop) {A : Type} (c : M A) : Prop :=
  forall m, exists evs,
    trace (machine_of (c m)) = trace m ++ evs /\ Forall P evs.

End Engine.

Arguments Done {W A} a m.
Arguments Panic {W A} msg m.

(** ** Scenarios

    A world that counts the callbacks run, a clock that stands still, and
    listeners that keep or replace the setting. *)

Module Scenario.

Definition clock_at (n : Z) : @Clock nat :=
  mkClock 0%nat (fun w => (mkTime n, w)) WallRateClock_WallTimeUntil
    NoClockEvents_EventRegister NoClockEvents_EventUnregister.

Definition keeping : @Listener nat :=
  mkListener (fun _ _ w => ((Setting_zero, false), w)).

Definition replacing (s : Setting) : @Listener nat :=
  mkListener (fun _ _ w => ((s, true), w)).

Definition count_callback : @Callback nat := Some S.

(** A timer made by [NewTimer] and then given the setting [s]. *)
Definition timer_with (c : @Clock nat) (l : @Listener nat) (s : Setting)
  : @Machine nat :=
  match NewTimer c l 0%nat with
  | Done _ m => machine_of (SetClock c s m)
  | Panic _ m => m
  end.

End Scenario.

(** ** Arithmetic of the machine integers *)

Ltac int64_unfold :=
  unfold wf_Time, MinTime, MaxTime, ZeroTime, MinDuration, MaxDuration,
    in_int64, in_uint64, add, sub, mul, uadd, umul, udiv,
    int64, uint64, modulus, MinInt64, MaxInt64 in *;
  cbn [ns] in *.

Lemma int64_id (z : Z) : in_int64 z -> int64 z = z.
Proof. int64_unfold. intros H. rewrite Z.mod_small; lia. Qed.

Lemma int64_range (z : Z) : in_int64 (int64 z).
Proof.
  int64_unfold.
  pose proof (Z.mod_pos_bound (z + 2 ^ 63) (2 ^ 64) ltac:(lia)). lia.
Qed.

Lemma int64_high (z : Z) :
  MaxInt64 < z <= MaxInt64 + modulus -> int64 z = z - modulus.
Proof.
  int64_unfold. intros H.
  replace (z + 2 ^ 63) with ((z - 2 ^ 63) + 1 * 2 ^ 64) by lia.
  rewrite Z.mod_add by lia. rewrite Z.mod_small; lia.
Qed.

Lemma int64_low (z : Z) :
  MinInt64 - modulus <= z < MinInt64 -> int64 z = z + modulus.
Proof.
  int64_unfold. intros H.
  replace (z + 2 ^ 63) with ((z + 2 ^ 63 + 2 ^ 64) + (-1) * 2 ^ 64) by lia.
  rewrite Z.mod_add by lia. rewrite Z.mod_small; lia.
Qed.

Lemma uint64_id (z : Z) : in_uint64 z -> uint64 z = z.
Proof. int64_unfold. intros H. apply Z.mod_small; lia. Qed.

Lemma uint64_neg (z : Z) : MinInt64 <= z < 0 -> uint64 z = z + modulus.
Proof.
  int64_unfold. intros H.
  replace z with ((z + 2 ^ 64) + (-1) * 2 ^ 64) at 1 by lia.
  rewrite Z.mod_add by lia. apply Z.mod_small; lia.
Qed.

Lemma wf_MinTime : wf_Time MinTime.
Proof. int64_unfold. lia. Qed.

Lemma wf_MaxTime : wf_Time MaxTime.
Proof. int64_unfold. lia. Qed.

Lemma Time_eq (t u : Time) : ns t = ns u -> t = u.
Proof. destruct t, u; simpl; congruence. Qed.

(** [Add] is the sum clamped to the range of [Time]. *)
Lemma Add_saturating (t : Time) (d : Duration) :
  wf_Time t -> in_int64 d ->
  ns (Add t d) = Z.max MinInt64 (Z.min MaxInt64 (ns t + d)).
Proof.
  intros Ht Hd. unfold Add, Duration_Nanoseconds.
  destruct (Z.gtb_spec (ns t) 0) as [Hp | Hp]; simpl.
  - unfold sub at 1. rewrite (int64_id (MaxInt64 - ns t)) by (int64_unfold; lia).
    destruct (Z.gtb_spec d (MaxInt64 - ns t)).
    + simpl. int64_unfold. lia.
    + destruct (Z.ltb_spec (ns t) 0); [lia |]. simpl.
      unfold add. rewrite int64_id by (int64_unfold; lia).
      int64_unfold. lia.
  - destruct (Z.ltb_spec (ns t) 0) as [Hn | Hn]; simpl.
    + unfold sub. rewrite (int64_id (MinInt64 - ns t)) by (int64_unfold; lia).
      destruct (Z.ltb_spec d (MinInt64 - ns t)).
      * simpl. int64_unfold. lia.
      * simpl. unfold add. rewrite int64_id by (int64_unfold; lia).
        int64_unfold. lia.
    + assert (ns t = 0) as -> by lia. simpl.
      unfold add. rewrite int64_id by (int64_unfold; lia).
      int64_unfold. lia.
Qed.

Lemma wf_Add (t : Time) (d : Duration) :
  wf_Time t -> in_int64 d -> wf_Time (Add t d).
Proof.
  intros Ht Hd. unfold wf_Time. rewrite Add_saturating by assumption.
  int64_unfold. lia.
Qed.

(** [Sub] is the difference clamped to the range of [Duration]. *)
Lemma Sub_saturating (t u : Time) :
  wf_Time t -> wf_Time u ->
  Sub t u = Z.max MinInt64 (Z.min MaxInt64 (ns t - ns u)).
Proof.
  intros Ht Hu. unfold Sub, Nanosecond, Equal, Before.
  unfold mul. rewrite Z.mul_1_r.
  rewrite (int64_id (sub _ _)) by apply int64_range.
  rewrite Add_saturating by (try assumption; apply int64_range).
  unfold sub.
  assert (in_int64 (ns t - ns u) \/ MaxInt64 < ns t - ns u \/ ns t - ns u < MinInt64)
    as [Hin | [Hhi | Hlo]] by (int64_unfold; lia).
  - rewrite int64_id by assumption.
    destruct (Z.eqb_spec (Z.max MinInt64 (Z.min MaxInt64 (ns u + (ns t - ns u)))) (ns t));
      int64_unfold; lia.
  - rewrite int64_high by (int64_unfold; lia).
    destruct (Z.eqb_spec
      (Z.max MinInt64 (Z.min MaxInt64 (ns u + (ns t - ns u - modulus)))) (ns t)).
    + int64_unfold; lia.
    + destruct (Z.ltb_spec (ns t) (ns u)); unfold MinDuration, MaxDuration;
        int64_unfold; lia.
  - rewrite int64_low by (int64_unfold; lia).
    destruct (Z.eqb_spec
      (Z.max MinInt64 (Z.min MaxInt64 (ns u + (ns t - ns u + modulus)))) (ns t)).
    + int64_unfold; lia.
    + destruct (Z.ltb_spec (ns t) (ns u)); unfold MinDuration, MaxDuration;
        int64_unfold; lia.
Qed.

Lemma Sub_range (t u : Time) : wf_Time t -> wf_Time u -> in_int64 (Sub t u).
Proof.
  intros Ht Hu. rewrite Sub_saturating by assumption. int64_unfold. lia.
Qed.

(** ** Instants: subtraction *)

Lemma Sub_unfold (t u : Time) :
  Sub t u =
  if Equal (Add u (sub (ns t) (ns u))) t then sub (ns t) (ns u)
  else if Before t u then MinDuration else MaxDuration.
Proof.
  unfold Sub, Nanosecond, mul. rewrite Z.mul_1_r.
  rewrite (int64_id (sub _ _)) by apply int64_range. reflexivity.
Qed.

(** The round trip of [Sub] succeeds exactly when the difference is a
    [Duration]. *)
Lemma Sub_check_exact (t u : Time) :
  wf_Time t -> wf_Time u ->
  (Equal (Add u (sub (ns t) (ns u))) t = true <-> in_int64 (ns t - ns u)).
Proof.
  intros Ht Hu. unfold Equal. rewrite Z.eqb_eq.
  rewrite Add_saturating by (try assumption; apply int64_range).
  unfold sub.
  assert (in_int64 (ns t - ns u) \/ MaxInt64 < ns t - ns u \/ ns t - ns u < MinInt64)
    as [Hin | [Hhi | Hlo]] by (int64_unfold; lia).
  - rewrite int64_id by assumption. int64_unfold. lia.
  - rewrite int64_high by (int64_unfold; lia). int64_unfold. lia.
  - rewrite int64_low by (int64_unfold; lia). int64_unfold. lia.
Qed.

(** C5: [t.Sub(u)] is the wrapped difference [d] of the two instants when
    [u.Add(d)] gives [t] back, and then [d] is the exact difference;
    otherwise it is [MinDuration] if [t] is before [u] and [MaxDuration] if
    not.  Hence whenever [t.Sub(u)] is neither bound, [u.Add(t.Sub(u))]
    equals [t]. *)
Theorem Sub_round_trip (t u : Time) :
  wf_Time t -> wf_Time u ->
  let d := sub (ns t) (ns u) in
  (Equal (Add u d) t = true -> Sub t u = d /\ d = ns t - ns u) /\
  (Equal (Add u d) t = false ->
     Sub t u = if Before t u then MinDuration else MaxDuration) /\
  (Sub t u <> MinDuration -> Sub t u <> MaxDuration ->
     Equal (Add u (Sub t u)) t = true).
Proof.
  intros Ht Hu d. subst d. rewrite Sub_unfold.
  destruct (Equal (Add u (sub (ns t) (ns u))) t) eqn:Hchk.
  - split; [| split].
    + intros _. split; [reflexivity |].
      apply Sub_check_exact in Hchk; try assumption.
      unfold sub. now apply int64_id.
    + discriminate.
    + intros _ _. exact Hchk.
  - split; [| split].
    + discriminate.
    + reflexivity.
    + intros Hmin Hmax. destruct (Before t u); congruence.
Qed.

Lemma Sub_round_trip_witness :
  wf_Time (mkTime 35) /\ wf_Time (mkTime 10) /\
  Sub (mkTime 35) (mkTime 10) = 25 /\
  Equal (Add (mkTime 10) (Sub (mkTime 35) (mkTime 10))) (mkTime 35) = true.
Proof.
  assert (H35 : wf_Time (mkTime 35)) by (int64_unfold; lia).
  assert (H10 : wf_Time (mkTime 10)) by (int64_unfold; lia).
  pose proof (Sub_round_trip (mkTime 35) (mkTime 10) H35 H10) as [H1 [_ H3]].
  split; [exact H35 |]. split; [exact H10 |].
  split.
  - destruct (H1 eq_refl) as [-> _]. reflexivity.
  - apply H3; vm_compute; discriminate.
Defined.

(** ** Instants: conversion from seconds *)

Lemma FromSeconds_representable (s : Z) :
  in_int64 (s * 1000000000) -> FromSeconds s = mkTime (s * 1000000000).
Proof.
  intros H. unfold FromSeconds, Second_Nanoseconds.
  destruct (Z.gtb_spec s (Z.quot MaxInt64 1000000000)) as [Hgt | Hle].
  - exfalso. change (Z.quot MaxInt64 1000000000) with 9223372036 in Hgt.
    int64_unfold. lia.
  - unfold mul. now rewrite int64_id.
Qed.

Lemma FromSeconds_positive_overflow (s : Z) :
  MaxInt64 < s * 1000000000 -> FromSeconds s = MaxTime.
Proof.
  intros H. unfold FromSeconds, Second_Nanoseconds.
  destruct (Z.gtb_spec s (Z.quot MaxInt64 1000000000)) as [Hgt | Hle].
  - reflexivity.
  - exfalso. change (Z.quot MaxInt64 1000000000) with 9223372036 in Hle.
    int64_unfold. lia.
Qed.

(** C6: where the claim fails.  [FromSeconds] guards the overflow above
    [MaxInt64] only: for seconds whose nanoseconds lie below [MinInt64] the
    product wraps around, to an instant that is neither bound of [Time] and
    lies after the zero time.  [FromUnix] on negative nanoseconds compares
    with a wrapped [MaxInt64 - ns] and returns [MaxTime] for an instant that
    is representable. *)
Theorem FromSeconds_negative_overflow_wraps :
  in_int64 (-9223372037) /\
  -9223372037 * 1000000000 < MinInt64 /\
  FromSeconds (-9223372037) = mkTime 9223372036709551616 /\
  FromSeconds (-9223372037) <> MinTime /\
  FromSeconds (-9223372037) <> MaxTime /\
  FromUnix (-9223372037) 0 = mkTime 9223372036709551616 /\
  in_int64 (0 * 1000000000 + -1) /\
  FromUnix 0 (-1) = MaxTime.
Proof.
  repeat split; try (vm_compute; congruence).
Qed.

(** ** Settings: advancing to an instant *)

Lemma At_disabled (s : Setting) (now : Time) :
  Enabled s = false -> At s now = (s, 0).
Proof. intros H. unfold At. now rewrite H. Qed.

Lemma At_not_due (s : Setting) (now : Time) :
  ns now < ns (Next s) -> At s now = (s, 0).
Proof.
  intros H. unfold At, After.
  destruct (Enabled s); simpl; [| reflexivity].
  destruct (Z.gtb_spec (ns (Next s)) (ns now)); [reflexivity | lia].
Qed.

Lemma At_one_shot (s : Setting) (now : Time) :
  Enabled s = true -> ns (Next s) <= ns now -> Period s = 0 ->
  At s now = (set_Enabled false s, 1).
Proof.
  intros He Hn Hp. unfold At, After. rewrite He, Hp. simpl.
  destruct (Z.gtb_spec (ns (Next s)) (ns now)); [lia | reflexivity].
Qed.

(** The branch of a periodic timer that is due, before any arithmetic is
    simplified. *)
Lemma At_due (s : Setting) (now : Time) :
  Enabled s = true -> ns (Next s) <= ns now -> Period s <> 0 ->
  At s now =
  (set_Next (Add (Next s)
     (int64 (umul (uint64 (Period s))
        (uadd 1 (udiv (uint64 (Sub now (Next s))) (uint64 (Period s))))))) s,
   uadd 1 (udiv (uint64 (Sub now (Next s))) (uint64 (Period s)))).
Proof.
  intros He Hn Hp. unfold At, After, Duration_Nanoseconds. rewrite He. simpl.
  destruct (Z.gtb_spec (ns (Next s)) (ns now)); [lia |].
  destruct (Z.eqb_spec (Period s) 0); [contradiction | reflexivity].
Qed.

(** The four branches of [At]. *)
Lemma At_cases (s : Setting) (now : Time) :
  (At s now = (s, 0) /\ (Enabled s = false \/ ns now < ns (Next s))) \/
  (At s now = (set_Enabled false s, 1) /\
   Enabled s = true /\ ns (Next s) <= ns now /\ Period s = 0) \/
  (At s now =
   (set_Next (Add (Next s)
      (int64 (umul (uint64 (Period s))
         (uadd 1 (udiv (uint64 (Sub now (Next s))) (uint64 (Period s))))))) s,
    uadd 1 (udiv (uint64 (Sub now (Next s))) (uint64 (Period s)))) /\
   Enabled s = true /\ ns (Next s) <= ns now /\ Period s <> 0).
Proof.
  destruct (Enabled s) eqn:He.
  - destruct (Z.lt_ge_cases (ns now) (ns (Next s))) as [Hlt | Hge].
    + left. split; [now apply At_not_due | now right].
    + destruct (Z.eq_dec (Period s) 0) as [Hp | Hp].
      * right. left. split; [now apply At_one_shot | auto].
      * right. right. split; [now apply At_due | auto].
  - left. split; [now apply At_disabled | now left].
Qed.

(** The elapsed time of a due timer is a [Duration] that is not negative. *)
Lemma Sub_due (now next : Time) :
  wf_Time now -> wf_Time next -> ns next <= ns now ->
  Sub now next = Z.min MaxInt64 (ns now - ns next) /\
  0 <= Sub now next <= MaxInt64.
Proof.
  intros Hn Hx Hle. rewrite Sub_saturating by assumption.
  int64_unfold. lia.
Qed.

(** The count of a due periodic timer does not wrap around. *)
Lemma expirations_due (d p : Z) :
  0 <= d <= MaxInt64 -> in_int64 p -> p <> 0 ->
  uadd 1 (udiv (uint64 d) (uint64 p)) = 1 + d / uint64 p /\
  1 <= 1 + d / uint64 p <= MaxInt64 + 1 /\
  0 < uint64 p.
Proof.
  intros Hd Hp Hp0.
  assert (Hq : 0 < uint64 p).
  { destruct (Z_lt_le_dec p 0).
    - rewrite uint64_neg by (int64_unfold; lia). int64_unfold. lia.
    - rewrite uint64_id by (int64_unfold; lia). lia. }
  rewrite (uint64_id d) by (int64_unfold; lia).
  unfold udiv.
  assert (0 <= d / uint64 p <= d).
  { split; [apply Z.div_pos; lia |].
    apply Z.div_le_upper_bound; [lia | nia]. }
  unfold uadd. rewrite uint64_id by (int64_unfold; lia).
  int64_unfold. lia.
Qed.

(** C1, as it was stated, fails where [Next] saturates: a setting that is
    due at [MaxTime] with period 1 stays at [MaxTime]. *)
Lemma At_periodic_saturates :
  let s := mkSetting true MaxTime 1 in
  wf_Setting s /\ wf_Time MaxTime /\
  Enabled s = true /\ 0 < Period s /\ ns (Next s) <= ns MaxTime /\
  At s MaxTime = (s, 1) /\
  ~ At_periodic_post s MaxTime (At s MaxTime).
Proof.
  cbv zeta. repeat split; try (vm_compute; congruence).
  unfold At_periodic_post. vm_compute. intros [_ [H _]]. discriminate.
Qed.

(** C1 (amended): for an enabled setting with period [p > 0] and
    [next = n0], and [now >= n0], let [exp = 1 + (now - n0) / p]; when
    [exp * p] is a [Duration] and [n0 + exp * p] is a [Time], [At] returns
    [exp], and the setting it returns has [next = n0 + exp * p] and is still
    enabled with period [p]. *)
Theorem At_periodic (s : Setting) (now : Time) :
  wf_Setting s -> wf_Time now ->
  Enabled s = true -> 0 < Period s -> ns (Next s) <= ns now ->
  (1 + (ns now - ns (Next s)) / Period s) * Period s <= MaxInt64 ->
  ns (Next s) + (1 + (ns now - ns (Next s)) / Period s) * Period s <= MaxInt64 ->
  At_periodic_post s now (At s now).
Proof.
  intros [Hnext Hper] Hnow He Hp Hdue Hprod Hsum.
  set (d := ns now - ns (Next s)) in *.
  assert (Hd : 0 <= d) by (subst d; lia).
  assert (Hdiv : d / Period s * Period s <= d)
    by (rewrite Z.mul_comm; apply Z.mul_div_le; lia).
  assert (Hdiv' : d < (1 + d / Period s) * Period s).
  { pose proof (Z.mul_succ_div_gt d (Period s) Hp). lia. }
  assert (Hq : 0 <= d / Period s) by (apply Z.div_pos; lia).
  destruct (Sub_due now (Next s) Hnow Hnext Hdue) as [HS HSr].
  fold d in HS.
  assert (HS' : Sub now (Next s) = d) by (int64_unfold; lia).
  rewrite At_due by (try assumption; lia).
  destruct (expirations_due d (Period s)) as [Hexp [Hexpr Hup]];
    [int64_unfold; lia | assumption | lia |].
  rewrite HS'. rewrite Hexp.
  rewrite (uint64_id (Period s)) in * by (int64_unfold; lia).
  unfold umul. rewrite uint64_id by (int64_unfold; nia).
  rewrite int64_id by (int64_unfold; nia).
  unfold At_periodic_post. cbn [fst snd set_Next Next Enabled Period].
  fold d. split; [reflexivity |]. split; [| auto].
  rewrite Add_saturating by (try assumption; int64_unfold; nia).
  int64_unfold. nia.
Qed.

Lemma At_periodic_witness :
  At_periodic_post (mkSetting true (mkTime 10) 10) (mkTime 35)
    (At (mkSetting true (mkTime 10) 10) (mkTime 35)).
Proof.
  apply At_periodic; try (vm_compute; intuition congruence).
Defined.

(** Outside the bounds of the amended C1 the product [exp * period] can
    also wrap around when it is converted to a [Duration]: here the exact
    next expiration, [MaxInt64 - 9], is a [Time], and [At] returns
    [MinTime]. *)
Lemma At_periodic_wraps :
  let s := mkSetting true (mkTime (-10)) 1 in
  let now := mkTime (MaxInt64 - 10) in
  wf_Setting s /\ wf_Time now /\
  in_int64 (ns (Next s) + (1 + (ns now - ns (Next s)) / Period s) * Period s) /\
  At s now = (mkSetting true MinTime 1, MaxInt64 + 1).
Proof.
  cbv zeta. repeat split; vm_compute; congruence.
Qed.

(** Where a periodic timer is due and its advance neither wraps around nor
    saturates, the next expiration is after [now]. *)
Lemma At_due_next (s : Setting) (now : Time) :
  wf_Setting s -> wf_Time now ->
  ns (Next s) <= ns now -> 0 < Period s ->
  uadd 1 (udiv (uint64 (Sub now (Next s))) (uint64 (Period s))) * Period s
    <= MaxInt64 ->
  ns now < MaxInt64 ->
  ns now <
  ns (Add (Next s)
        (int64 (umul (uint64 (Period s))
           (uadd 1 (udiv (uint64 (Sub now (Next s))) (uint64 (Period s))))))).
Proof.
  intros [Hnext Hper] Hnow Hdue Hp Hprod Hmax.
  destruct (Sub_due now (Next s) Hnow Hnext Hdue) as [HS HSr].
  destruct (expirations_due (Sub now (Next s)) (Period s)) as [Hexp [Hexpr Hup]];
    [assumption | assumption | lia |].
  rewrite Hexp in *.
  rewrite (uint64_id (Period s)) in * by (int64_unfold; lia).
  set (d := Sub now (Next s)) in *.
  assert (Hdiv' : d < (1 + d / Period s) * Period s).
  { pose proof (Z.mul_succ_div_gt d (Period s) Hp). lia. }
  unfold umul. rewrite uint64_id by (int64_unfold; nia).
  rewrite int64_id by (int64_unfold; nia).
  rewrite Add_saturating by (try assumption; int64_unfold; nia).
  int64_unfold. nia.
Qed.

(** C2, as it was stated, fails at the end of time: a periodic setting due
    at [MaxTime] is advanced to [MaxTime] again, and so it expires once more
    at each later call with the same instant. *)
Lemma At_again_at_MaxTime :
  let s := mkSetting true MaxTime 1 in
  wf_Setting s /\ Period_invariant s /\ wf_Time MaxTime /\
  ns MaxTime <= ns MaxTime /\
  At s MaxTime = (s, 1) /\
  At (fst (At s MaxTime)) MaxTime <> (fst (At s MaxTime), 0).
Proof.
  cbv zeta. repeat split; try (vm_compute; congruence).
Qed.

(** C2 (amended): let [(s', e) = s.At(now)] for a setting whose period is
    not negative.  When [e * period] is a [Duration] and, if it is positive
    (a periodic timer has expired), [now] is before [MaxTime], then for
    every [now' <= now], [s'.At(now') = (s', 0)]. *)
Theorem At_earlier_unchanged (s : Setting) (now now' : Time) :
  wf_Setting s -> Period_invariant s -> wf_Time now ->
  snd (At s now) * Period s <= MaxInt64 ->
  (0 < snd (At s now) * Period s -> ns now < MaxInt64) ->
  ns now' <= ns now ->
  At (fst (At s now)) now' = (fst (At s now), 0).
Proof.
  intros Hwf Hinv Hnow Hprod Hmax Hle.
  destruct (At_cases s now) as [[-> H] | [[-> H] | [Heq [He [Hdue Hp]]]]];
    cbn [fst snd] in *.
  - destruct H as [H | H]; [now apply At_disabled | apply At_not_due; lia].
  - now apply At_disabled.
  - rewrite Heq in *. cbn [fst snd] in *.
    unfold Period_invariant in Hinv.
    assert (Hpos : 0 < Period s) by lia.
    destruct Hwf as [Hnext Hper].
    destruct (Sub_due now (Next s) Hnow Hnext Hdue) as [_ HSr].
    destruct (expirations_due (Sub now (Next s)) (Period s)) as [Hexp [Hexpr _]];
      [assumption | assumption | lia |].
    apply At_not_due. cbn [set_Next Next].
    eapply Z.le_lt_trans; [exact Hle |].
    apply At_due_next; try assumption; [now split |].
    apply Hmax. rewrite Hexp. nia.
Qed.

Lemma At_earlier_unchanged_witness :
  At (fst (At (mkSetting true (mkTime 10) 10) (mkTime 35))) (mkTime 5) =
  (fst (At (mkSetting true (mkTime 10) 10) (mkTime 35)), 0).
Proof.
  apply At_earlier_unchanged; try (vm_compute; intuition congruence).
Defined.

(** The bounds of the amended C2 are the least ones: a due periodic timer
    whose advance leaves them expires again at the same instant. *)
Lemma At_earlier_unchanged_tight (s : Setting) (now : Time) :
  wf_Setting s -> wf_Time now ->
  Enabled s = true -> ns (Next s) <= ns now -> 0 < Period s ->
  MaxInt64 < snd (At s now) * Period s \/ ns now = MaxInt64 ->
  At (fst (At s now)) now <> (fst (At s now), 0).
Proof.
  intros [Hnext Hper] Hnow He Hdue Hp Hout.
  rewrite (At_due s now) in * by (try assumption; lia).
  cbn [fst snd] in *.
  destruct (Sub_due now (Next s) Hnow Hnext Hdue) as [HS HSr].
  destruct (expirations_due (Sub now (Next s)) (Period s)) as [Hexp [Hexpr Hup]];
    [assumption | assumption | lia |].
  rewrite Hexp in *.
  rewrite (uint64_id (Period s)) in * by (int64_unfold; lia).
  set (d := Sub now (Next s)) in *.
  assert (Hdiv : d / Period s * Period s <= d)
    by (rewrite Z.mul_comm; apply Z.mul_div_le; lia).
  assert (Hdiv' : d < (1 + d / Period s) * Period s).
  { pose proof (Z.mul_succ_div_gt d (Period s) Hp). lia. }
  assert (Hq : 0 <= d / Period s) by (apply Z.div_pos; lia).
  set (e := 1 + d / Period s) in *.
  assert (Hlate :
    ns (Add (Next s) (int64 (umul (Period s) e))) <= ns now).
  { unfold umul. rewrite uint64_id by (int64_unfold; nia).
    rewrite Add_saturating by (try assumption; apply int64_range).
    destruct (Z_le_gt_dec (Period s * e) MaxInt64) as [Hfit | Hbig].
    - rewrite int64_id by (int64_unfold; nia).
      destruct Hout as [Hout | Hout]; [lia |]. int64_unfold. lia.
    - rewrite int64_high by (int64_unfold; nia). int64_unfold. nia. }
  set (s' := set_Next (Add (Next s) (int64 (umul (Period s) e))) s) in *.
  assert (He' : Enabled s' = true) by exact He.
  assert (Hp' : Period s' <> 0) by (cbn; lia).
  assert (Hwf' : wf_Time (Next s')) by (apply wf_Add; [assumption | apply int64_range]).
  rewrite (At_due s' now) by assumption.
  intros Habs. injection Habs as _ Hzero.
  destruct (Sub_due now (Next s') Hnow Hwf' Hlate) as [_ HSr'].
  destruct (expirations_due (Sub now (Next s')) (Period s')) as [Hexp' [Hexpr' _]];
    [assumption | exact Hper | assumption |].
  change (Next s') with (Add (Next s) (int64 (umul (Period s) e))) in Hexp', Hexpr'.
  change (Period s') with (Period s) in Hexp', Hexpr'.
  lia.
Qed.

(** C10: [At] never changes [Period]; it changes [Next] only where the
    setting is enabled, due and periodic; and when it counts no expiration
    it returns the setting it was given. *)
Theorem At_frame (s : Setting) (now : Time) :
  wf_Setting s -> Period_invariant s -> wf_Time now ->
  Period (fst (At s now)) = Period s /\
  (Next (fst (At s now)) <> Next s ->
     Enabled s = true /\ ns (Next s) <= ns now /\ 0 < Period s) /\
  (snd (At s now) = 0 -> fst (At s now) = s).
Proof.
  intros [Hnext Hper] Hinv Hnow. unfold Period_invariant in Hinv.
  destruct (At_cases s now) as [[-> H] | [[-> H] | [-> [He [Hdue Hp]]]]];
    cbn [fst snd set_Enabled set_Next Next Period].
  - repeat split; congruence.
  - repeat split; congruence.
  - split; [reflexivity |]. split.
    + intros _. repeat split; try assumption. lia.
    + intros Hzero. exfalso.
      destruct (Sub_due now (Next s) Hnow Hnext Hdue) as [_ HSr].
      destruct (expirations_due (Sub now (Next s)) (Period s)) as [Hexp [Hexpr _]];
        [assumption | assumption | assumption |].
      lia.
Qed.

Lemma At_frame_witness :
  let s := mkSetting true (mkTime 10) 10 in
  Period (fst (At s (mkTime 35))) = 10 /\
  Next (fst (At s (mkTime 35))) = mkTime 40 /\
  fst (At s (mkTime 5)) = s.
Proof.
  cbv zeta.
  assert (Hwf : wf_Setting (mkSetting true (mkTime 10) 10))
    by (vm_compute; intuition congruence).
  assert (Hinv : Period_invariant (mkSetting true (mkTime 10) 10))
    by (vm_compute; congruence).
  assert (H35 : wf_Time (mkTime 35)) by (vm_compute; intuition congruence).
  assert (H5 : wf_Time (mkTime 5)) by (vm_compute; intuition congruence).
  destruct (At_frame _ _ Hwf Hinv H35) as [HP _].
  destruct (At_frame _ _ Hwf Hinv H5) as [_ [_ HZ]].
  split; [exact HP |]. split; [reflexivity |].
  apply HZ. reflexivity.
Defined.

(** ** Settings: construction *)

Ltac solve_constructor_case :=
  try congruence; try lia; try (subst; reflexivity);
  match goal with
  | H : (_, _) = (_, _) |- _ => injection H; intros; try discriminate; lia
  | H : mkTime _ = ZeroTime |- _ => injection H; intros; lia
  end.

(** C7: [SettingFromSpecAt] returns [EINVAL] exactly when [value < 0], the
    disabled setting with the given period exactly when [value = 0], and
    otherwise the enabled setting due at [now.Add(value)];
    [SettingFromAbsSpec] does the same on an absolute [value] compared with
    [ZeroTime]; and every function of the package that returns an error
    returns [nil] or one of these two rejections. *)
Theorem Setting_constructor_errors :
  (forall (value interval : Duration) (now : Time),
     let r := SettingFromSpecAt value interval now in
     (snd r = Some EINVAL <-> value < 0) /\
     (snd r = None <-> 0 <= value) /\
     (r = (mkSetting false ZeroTime interval, None) <-> value = 0) /\
     (0 < value -> r = (mkSetting true (Add now value) interval, None))) /\
  (forall (value : Time) (interval : Duration),
     let r := SettingFromAbsSpec value interval in
     (snd r = Some EINVAL <-> ns value < ns ZeroTime) /\
     (snd r = None <-> ns ZeroTime <= ns value) /\
     (r = (mkSetting false ZeroTime interval, None) <-> value = ZeroTime) /\
     (ns ZeroTime < ns value -> r = (mkSetting true value interval, None))) /\
  (forall (W : Type) (value interval : Duration) (c : @Clock W) (m : Machine),
     exists now m',
       SettingFromSpec value interval c m =
         Done (SettingFromSpecAt value interval now) m') /\
  (forall (W : Type) (ToNsecCapped : Timespec -> Z)
          (ToDuration : Timespec -> Duration) (its : Itimerspec) (abs : bool)
          (c : @Clock W) (m : Machine),
     exists r m',
       SettingFromItimerspec ToNsecCapped ToDuration its abs c m = Done r m' /\
       (snd r = None \/
        snd r = Some EINVAL /\
        if abs then ToNsecCapped (Value its) < 0 else ToDuration (Value its) < 0)) /\
  (forall (W : Type) (w : W), fst (NoClockEvents_EventRegister w) = None) /\
  (forall (W : Type) (q : W -> W) (w : W),
     fst (ClockEventsQueue_EventRegister q w) = None).
Proof.
  split; [| split; [| split; [| split; [| split]]]].
  - intros value interval now r. subst r. unfold SettingFromSpecAt.
    destruct (Z.ltb_spec value 0) as [Hneg | Hnn];
      [| destruct (Z.eqb_spec value 0) as [Hz | Hnz]];
      cbn [snd]; repeat split; intros; solve_constructor_case.
  - intros value interval r. subst r. unfold SettingFromAbsSpec, Before, IsZero.
    destruct value as [v]. cbn [ns ZeroTime].
    destruct (Z.ltb_spec v 0) as [Hneg | Hnn];
      [| destruct (Z.eqb_spec v 0) as [Hz | Hnz]];
      cbn [snd]; repeat split; intros; solve_constructor_case.
  - intros W value interval c m.
    unfold SettingFromSpec, clock_Now, extern, bind, ret.
    destruct (Now c (world m)) as [now w]. eauto.
  - intros W ToNsecCapped ToDuration its abs c m.
    unfold SettingFromItimerspec, SettingFromSpec, clock_Now, extern, bind, ret.
    destruct abs.
    + eexists. eexists. split; [reflexivity |].
      unfold SettingFromAbsSpec, Before, FromTimespec. cbn [ns ZeroTime].
      destruct (Z.ltb_spec (ToNsecCapped (Value its)) 0); cbn [snd].
      * right. split; [reflexivity | assumption].
      * left. destruct (IsZero _); reflexivity.
    + destruct (Now c (world m)) as [now w].
      eexists. eexists. split; [reflexivity |].
      unfold SettingFromSpecAt.
      destruct (Z.ltb_spec (ToDuration (Value its)) 0); cbn [snd].
      * right. split; [reflexivity | assumption].
      * left. destruct (_ =? _); reflexivity.
  - reflexivity.
  - reflexivity.
Qed.

(** ** The engine: what a call adds to the log *)

Section EngineLog.

Context {W : Type}.
Variable P : Event -> Prop.

Local Abbreviation emitsP := (@emits W P).

Lemma emits_ret {A : Type} (a : A) : emitsP (ret a).
Proof. intros m. exists []. cbn. rewrite app_nil_r. auto. Qed.

Lemma emits_panic {A : Type} (msg : string) : emitsP (panic msg : M A).
Proof. intros m. exists []. cbn. rewrite app_nil_r. auto. Qed.

Lemma emits_bind {A B : Type} (c : M A) (k : A -> M B) :
  emitsP c -> (forall a, emitsP (k a)) -> emitsP (bind c k).
Proof.
  intros Hc Hk m. unfold bind.
  destruct (Hc m) as [evs [Heq Hall]].
  destruct (c m) as [a m' | msg m']; cbn in *.
  - destruct (Hk a m') as [evs' [Heq' Hall']].
    exists (evs ++ evs'). rewrite Heq', Heq, app_assoc.
    split; [reflexivity | now apply Forall_app].
  - exists evs. auto.
Qed.

Lemma emits_get_timer : emitsP get_timer.
Proof. intros m. exists []. cbn. rewrite app_nil_r. auto. Qed.

Lemma emits_put_timer (t : Timer) : emitsP (put_timer t).
Proof. intros m. exists []. cbn. rewrite app_nil_r. auto. Qed.

Lemma emits_extern {A : Type} (f : W -> A * W) : emitsP (extern f).
Proof.
  intros m. exists []. unfold extern.
  destruct (f (world m)). cbn. rewrite app_nil_r. auto.
Qed.

Lemma emits_log (e : Event) : P e -> emitsP (log e).
Proof. intros He m. exists [e]. cbn. auto. Qed.

End EngineLog.

Create HintDb emits.

#[local] Hint Resolve emits_ret emits_panic emits_get_timer emits_put_timer
  emits_extern : emits.

(** Walk down a computation: through binds, and by cases through the
    branches it takes. *)
Ltac emits_step :=
  match goal with
  | |- emits _ (bind _ _) => apply emits_bind; [| intros]
  | |- emits _ (if ?b then _ else _) => destruct b
  | |- emits _ (match ?x with _ => _ end) => destruct x
  | |- emits _ (let (_, _) := ?x in _) => destruct x
  | |- emits _ (log _) => apply emits_log; cbn; auto
  | |- emits _ _ => solve [auto with emits]
  end.

Ltac emits_walk := repeat emits_step.

Section EngineNotify.

Context {W : Type}.
Variable P : Event -> Prop.

(** [P] holds of every call of the listener with expirations, and of
    everything else the timer logs. *)
Hypothesis P_notify : forall exp s, 0 < exp -> P (EvNotify exp s).
Hypothesis P_other : forall e, is_notify e = false -> P e.

Local Abbreviation emitsP := (@emits W P).

Lemma emits_set_setting (s : Setting) : emitsP (set_setting s).
Proof. unfold set_setting. emits_walk. Qed.

Lemma emits_set_pauseState (p : timerPauseState) : emitsP (set_pauseState p).
Proof. unfold set_pauseState. emits_walk. Qed.

Lemma emits_set_kicker (k : option (option Duration)) : emitsP (set_kicker k).
Proof. unfold set_kicker. emits_walk. Qed.

Lemma emits_set_events (c : Chan) : emitsP (set_events c).
Proof. unfold set_events. emits_walk. Qed.

Lemma emits_set_clock (c : Clock) : emitsP (set_clock c).
Proof. unfold set_clock. emits_walk. Qed.

Hint Resolve emits_set_setting emits_set_pauseState emits_set_kicker
  emits_set_events emits_set_clock : emits.

Lemma emits_kicker_Reset (d : Duration) : emitsP (kicker_Reset d).
Proof. unfold kicker_Reset. emits_walk. Qed.

Lemma emits_kicker_Stop : emitsP kicker_Stop.
Proof. unfold kicker_Stop. emits_walk. Qed.

Lemma emits_notify (exp : Z) (s : Setting) :
  0 < exp -> emitsP (notify exp s).
Proof. intros Hexp. unfold notify. emits_walk. Qed.

Lemma emits_clock_Now (c : Clock) : emitsP (clock_Now c).
Proof. unfold clock_Now. emits_walk. Qed.

Lemma emits_clock_EventRegister (c : Clock) : emitsP (clock_EventRegister c).
Proof. unfold clock_EventRegister. emits_walk. Qed.

Lemma emits_clock_EventUnregister (c : Clock) :
  emitsP (clock_EventUnregister c).
Proof. unfold clock_EventUnregister. emits_walk. Qed.

Lemma emits_Timer_Clock : emitsP Timer_Clock.
Proof. unfold Timer_Clock. emits_walk. Qed.

Hint Resolve emits_kicker_Reset emits_kicker_Stop emits_clock_Now
  emits_clock_EventRegister emits_clock_EventUnregister emits_Timer_Clock
  : emits.

Lemma emits_init : emitsP init.
Proof. unfold init. emits_walk. Qed.

Lemma emits_close_events : emitsP close_events.
Proof. unfold close_events. emits_walk. Qed.

Lemma emits_resetKickerLocked (now : Time) : emitsP (resetKickerLocked now).
Proof. unfold resetKickerLocked. emits_walk. Qed.

Lemma emits_resample (c : Clock) (now : Time) : emitsP (resample c now).
Proof. unfold resample. emits_walk. Qed.

Lemma emits_run_callback (f : Callback) : emitsP (run_callback f).
Proof. unfold run_callback. emits_walk. Qed.

Hint Resolve emits_init emits_close_events emits_resetKickerLocked
  emits_resample emits_run_callback : emits.

(** The listener is called behind the test [exp > 0]. *)
Lemma emits_notify_if_expired {A : Type} (exp : Z) (s : Setting)
  (k : Setting * bool -> M A) (other : M A) :
  (forall r, emitsP (k r)) -> emitsP other ->
  emitsP (if exp >? 0 then bind (notify exp s) k else other).
Proof.
  intros Hk Hother. destruct (Z.gtb_spec exp 0); [| assumption].
  apply emits_bind; [now apply emits_notify | assumption].
Qed.

Lemma emits_advance_and_notify (now : Time) :
  emitsP (advance_and_notify now).
Proof.
  unfold advance_and_notify.
  apply emits_bind; [auto with emits | intros t].
  destruct (At (setting t) now) as [s exp].
  apply emits_bind; [auto with emits | intros _].
  apply emits_bind; [| intros; auto with emits].
  apply emits_notify_if_expired; [intros r; emits_walk | auto with emits].
Qed.

Hint Resolve emits_advance_and_notify : emits.

Lemma emits_Tick_locked (c : Clock) (now : Time) : emitsP (Tick_locked c now).
Proof. unfold Tick_locked. emits_walk. Qed.

Lemma emits_Tick : emitsP Tick.
Proof.
  unfold Tick. emits_walk. apply emits_Tick_locked.
Qed.

Lemma emits_Pause : emitsP Pause.
Proof. unfold Pause. emits_walk. Qed.

Lemma emits_Resume : emitsP Resume.
Proof. unfold Resume. emits_walk. Qed.

Lemma emits_Destroy : emitsP Destroy.
Proof. unfold Destroy. emits_walk. Qed.

Lemma emits_Get : emitsP Get.
Proof. unfold Get, Get_locked. emits_walk. Qed.

Lemma emits_SwapAnd (s : Setting) (f : Callback) :
  emitsP (SwapAnd s f).
Proof.
  unfold SwapAnd, SwapAnd_locked.
  apply emits_bind; [auto with emits | intros c].
  apply emits_bind; [auto with emits | intros now].
  apply emits_bind; [auto with emits | intros t].
  destruct (negb _); [auto with emits |].
  apply emits_bind; [auto with emits | intros now'].
  destruct (At (setting t) now') as [oldS oldExp].
  apply emits_bind.
  { apply emits_notify_if_expired; [intros r; emits_walk | auto with emits]. }
  intros _. apply emits_bind; [auto with emits | intros _].
  destruct (At s now') as [newS newExp].
  apply emits_bind; [auto with emits | intros _].
  apply emits_bind; [| intros _; emits_walk].
  apply emits_notify_if_expired; [intros r; emits_walk | auto with emits].
Qed.

Lemma emits_SetClock (c : Clock) (s : Setting) : emitsP (SetClock c s).
Proof. unfold SetClock. emits_walk. Qed.

Lemma emits_call (c : Call) : emitsP (call c).
Proof.
  destruct c; cbn [call]; unfold Swap;
    auto using emits_Tick, emits_Pause, emits_Resume, emits_Destroy,
      emits_SetClock;
    (apply emits_bind; [| intros; apply emits_ret]);
    auto using emits_Get, emits_SwapAnd.
Qed.

Lemma emits_calls (cs : list Call) : emitsP (calls cs).
Proof.
  induction cs as [| c cs IH]; cbn [calls].
  - apply emits_ret.
  - apply emits_bind; [apply emits_call | intros _; exact IH].
Qed.

End EngineNotify.

(** C4: across every sequence of calls on a timer, the listener is only
    ever called with [exp > 0]. *)
Theorem listener_notified_only_of_expirations {W : Type}
  (cs : list (@Call W)) (m : Machine) :
  Forall notify_positive (trace m) ->
  Forall notify_positive (trace (machine_of (calls cs m))).
Proof.
  intros Hm.
  assert (Hpos : forall exp s, 0 < exp -> notify_positive (EvNotify exp s))
    by (intros exp s Hexp; exact Hexp).
  assert (Hother : forall e, is_notify e = false -> notify_positive e)
    by (intros [] He; cbn in *; trivial; discriminate).
  destruct (emits_calls (W := W) notify_positive Hpos Hother cs m)
    as [evs [-> Hevs]].
  apply Forall_app. now split.
Qed.

Lemma listener_notified_only_of_expirations_witness :
  let m := Scenario.timer_with (Scenario.clock_at 35) Scenario.keeping
             (mkSetting true (mkTime 10) 10) in
  let cs := [CallTick; CallGet; CallSwap (mkSetting true (mkTime 20) 0); CallTick] in
  notifications (trace (machine_of (calls cs m))) =
    [(3, mkSetting true (mkTime 40) 10); (1, mkSetting false (mkTime 20) 0)] /\
  Forall notify_positive (trace (machine_of (calls cs m))).
Proof.
  cbv zeta. split; [vm_compute; reflexivity |].
  apply listener_notified_only_of_expirations.
  vm_compute. repeat constructor.
Defined.

(** ** The engine: the calls on a running timer *)

Ltac engine_unfold :=
  unfold Swap; unfold SwapAnd, SwapAnd_locked, Get, Get_locked, Tick, Tick_locked,
    Pause, Resume, Destroy, SetClock, init, close_events,
    advance_and_notify, resample, resetKickerLocked, run_callback, notify,
    kicker_Reset, kicker_Stop, clock_Now, clock_EventRegister,
    clock_EventUnregister, Timer_Clock, set_setting, set_pauseState,
    set_kicker, set_events, set_clock, extern, log, bind, ret, panic,
    get_timer, put_timer.

(** Decide the next test that a call makes on what its collaborators
    answered. *)
Ltac engine_case :=
  match goal with
  | |- context [?e >? 0] => is_var e; destruct (e >? 0)
  | |- context [match ?f with Some _ => _ | None => _ end] =>
      is_var f; destruct f
  | |- context [NotifyTimer ?l ?e ?s ?w] =>
      is_var w; destruct (NotifyTimer l e s w) as [[? []] ?]
  | |- context [NotifyTimer ?l ?e ?s (?g ?w)] =>
      is_var w; destruct (NotifyTimer l e s (g w)) as [[? []] ?]
  | |- context [Enabled ?s] => is_var s; destruct (Enabled s) eqn:?
  | |- context [WallTimeUntil ?c ?a ?b ?w] =>
      is_var w; destruct (WallTimeUntil c a b w)
  | |- context [WallTimeUntil ?c ?a ?b (?g ?w)] =>
      is_var w; destruct (WallTimeUntil c a b (g w))
  end; cbn.

(** SwapAnd from the locking of the mutex on, for any clock and instant
    read before it: the instant is read again if the timer has another
    clock by then. *)
Lemma SwapAnd_locked_order {W : Type} (m : @Machine W)
  (unlockedClock : Clock) (now0 : Time) (s : Setting) (f : Callback) :
  pauseState (timer m) = timerUnpaused ->
  kicker (timer m) <> None ->
  let t := timer m in
  let (now, w0) :=
    if Nat.eqb (clock_id (clock t)) (clock_id unlockedClock)
    then (now0, world m) else Now (clock t) (world m) in
  let (oldS, oldExp) := At (setting t) now in
  let w1 :=
    if oldExp >? 0 then snd (NotifyTimer (listener t) oldExp oldS w0) else w0 in
  let w2 := match f with Some g => g w1 | None => w1 end in
  let (newS, newExp) := At s now in
  let r :=
    if newExp >? 0 then NotifyTimer (listener t) newExp newS w2
    else ((newS, false), w2) in
  let installed := if snd (fst r) then fst (fst r) else newS in
  let k := WallTimeUntil (clock t) (Next installed) now (snd r) in
  SwapAnd_locked unlockedClock now0 s f m =
  Done (now, oldS)
    (mkMachine
       (mkTimer (clock t) (listener t) installed timerUnpaused
          (if Enabled installed then Some (Some (fst k)) else kicker t)
          (events t))
       (if Enabled installed then snd k else snd r)
       (trace m
        ++ (if oldExp >? 0 then [EvNotify oldExp oldS] else [])
        ++ (match f with Some _ => [EvCallback] | None => [] end)
        ++ (if newExp >? 0 then [EvNotify newExp newS] else [])
        ++ (if Enabled installed then [EvKickerReset (fst k)] else []))).
Proof.
  intros Hrun Hkick. cbv zeta.
  destruct m as [[c l s0 p k ev] w tr]. cbn in Hrun, Hkick. subst p.
  destruct k as [k |]; [| contradiction].
  engine_unfold. cbn.
  destruct (Nat.eqb (clock_id c) (clock_id unlockedClock)); cbn;
    [| destruct (Now c w) as [now w0]; cbn ];
    match goal with
    | |- context [At s0 ?n] =>
        destruct (At s0 n) as [oldS oldExp]; destruct (At s n) as [newS newExp]
    end;
    repeat engine_case; rewrite <- ?app_assoc, ?app_nil_r; reflexivity.
Qed.

(** C3: on a running timer, [SwapAnd(s, f)] reads the clock; advances the
    current setting to [now] and, if expirations have accrued, calls the
    listener with them, whose answer is dropped; runs [f] once if it is
    not nil; advances [s] to [now], installs it and, if that has
    expirations, calls the listener, whose replacement is installed if it
    gives one; resets the kicker; and returns [now] with the old setting as
    advanced to [now]. *)
Theorem SwapAnd_order {W : Type} (m : @Machine W) (s : Setting) (f : Callback) :
  pauseState (timer m) = timerUnpaused ->
  kicker (timer m) <> None ->
  let t := timer m in
  let (now, w0) := Now (clock t) (world m) in
  let (oldS, oldExp) := At (setting t) now in
  let w1 :=
    if oldExp >? 0 then snd (NotifyTimer (listener t) oldExp oldS w0) else w0 in
  let w2 := match f with Some g => g w1 | None => w1 end in
  let (newS, newExp) := At s now in
  let r :=
    if newExp >? 0 then NotifyTimer (listener t) newExp newS w2
    else ((newS, false), w2) in
  let installed := if snd (fst r) then fst (fst r) else newS in
  let k := WallTimeUntil (clock t) (Next installed) now (snd r) in
  SwapAnd s f m =
  Done (now, oldS)
    (mkMachine
       (mkTimer (clock t) (listener t) installed timerUnpaused
          (if Enabled installed then Some (Some (fst k)) else kicker t)
          (events t))
       (if Enabled installed then snd k else snd r)
       (trace m
        ++ (if oldExp >? 0 then [EvNotify oldExp oldS] else [])
        ++ (match f with Some _ => [EvCallback] | None => [] end)
        ++ (if newExp >? 0 then [EvNotify newExp newS] else [])
        ++ (if Enabled installed then [EvKickerReset (fst k)] else []))).
Proof.
  intros Hrun Hkick. cbv zeta.
  destruct m as [[c l s0 p k ev] w tr]. cbn in Hrun, Hkick. subst p.
  destruct k as [k |]; [| contradiction].
  engine_unfold. cbn.
  destruct (Now c w) as [now w0]. cbn. rewrite Nat.eqb_refl. cbn.
  destruct (At s0 now) as [oldS oldExp].
  destruct (At s now) as [newS newExp].
  repeat engine_case; rewrite <- ?app_assoc, ?app_nil_r; reflexivity.
Qed.

Lemma SwapAnd_order_witness :
  let m := Scenario.timer_with (Scenario.clock_at 35)
             (Scenario.replacing Setting_zero) (mkSetting true (mkTime 10) 10) in
  match SwapAnd (mkSetting true (mkTime 20) 5) Scenario.count_callback m with
  | Done r m' =>
      r = (mkTime 35, mkSetting true (mkTime 40) 10) /\
      setting (timer m') = Setting_zero /\
      world m' = 1%nat /\
      notifications (trace m') =
        [(3, mkSetting true (mkTime 40) 10); (4, mkSetting true (mkTime 40) 5)]
  | Panic _ _ => False
  end.
Proof.
  cbv zeta.
  pose proof (SwapAnd_order
    (Scenario.timer_with (Scenario.clock_at 35)
       (Scenario.replacing Setting_zero) (mkSetting true (mkTime 10) 10))
    (mkSetting true (mkTime 20) 5) Scenario.count_callback
    eq_refl ltac:(vm_compute; discriminate)) as H.
  hnf in H. rewrite H.
  repeat split; vm_compute; reflexivity.
Defined.

(** C9: when expirations have accrued and the listener answers them with
    a replacement [newS], [Get] returns the setting as [At] advanced it,
    and the timer holds [newS]: the two differ whenever [newS] is not the
    advanced setting. *)
Theorem Get_returns_advanced_setting {W : Type} (m : @Machine W) (newS : Setting) :
  pauseState (timer m) = timerUnpaused ->
  kicker (timer m) <> None ->
  let t := timer m in
  let now := fst (Now (clock t) (world m)) in
  let w0 := snd (Now (clock t) (world m)) in
  let s1 := fst (At (setting t) now) in
  let exp := snd (At (setting t) now) in
  0 < exp ->
  fst (NotifyTimer (listener t) exp s1 w0) = (newS, true) ->
  exists m',
    Get m = Done (now, s1) m' /\
    setting (timer m') = newS /\
    (newS <> s1 -> setting (timer m') <> snd (now, s1)).
Proof.
  intros Hrun Hkick. cbv zeta.
  destruct m as [[c l s0 p k ev] w tr]. cbn in Hrun, Hkick. subst p.
  destruct k as [k |]; [| contradiction].
  engine_unfold. cbn.
  destruct (Now c w) as [now w0]. cbn. rewrite Nat.eqb_refl. cbn.
  destruct (At s0 now) as [s1 exp]. cbn.
  intros Hexp Hreplace.
  destruct (Z.gtb_spec exp 0) as [_ | Hle]; [| lia]. cbn.
  destruct (NotifyTimer l exp s1 w0) as [[repl ok] w1]. cbn in *.
  injection Hreplace as -> ->. cbn.
  destruct (Enabled newS); cbn.
  - destruct (WallTimeUntil c (Next newS) now w1) as [d w2]. cbn.
    eexists. split; [reflexivity |]. cbn. auto.
  - eexists. split; [reflexivity |]. cbn. auto.
Qed.

Lemma Get_returns_advanced_setting_witness :
  let m := Scenario.timer_with (Scenario.clock_at 25)
             (Scenario.replacing (mkSetting true (mkTime 100) 100))
             (mkSetting true (mkTime 10) 10) in
  exists m',
    Get m = Done (mkTime 25, mkSetting true (mkTime 30) 10) m' /\
    setting (timer m') = mkSetting true (mkTime 100) 100 /\
    setting (timer m') <> mkSetting true (mkTime 30) 10.
Proof.
  cbv zeta.
  destruct (Get_returns_advanced_setting
    (Scenario.timer_with (Scenario.clock_at 25)
       (Scenario.replacing (mkSetting true (mkTime 100) 100))
       (mkSetting true (mkTime 10) 10))
    (mkSetting true (mkTime 100) 100)
    eq_refl ltac:(vm_compute; discriminate)
    ltac:(vm_compute; reflexivity) ltac:(vm_compute; reflexivity))
    as [m' [HGet [Hset Hdiff]]].
  exists m'. split; [exact HGet |]. split; [exact Hset |].
  apply Hdiff. vm_compute. discriminate.
Defined.

(** ** The engine: a destroyed timer *)

Lemma notifications_app (l1 l2 : list Event) :
  notifications (l1 ++ l2) = notifications l1 ++ notifications l2.
Proof. unfold notifications. apply flat_map_app. Qed.

Lemma notifications_silent (evs : list Event) :
  Forall (fun e => is_notify e = false) evs -> notifications evs = [].
Proof.
  induction 1 as [| e evs He _ IH]; [reflexivity |].
  destruct e; cbn in *; try discriminate; exact IH.
Qed.

Lemma emits_silent {W A : Type} (c : @M W A) (m : Machine) :
  emits (fun e => is_notify e = false) c ->
  notifications (trace (machine_of (c m))) = notifications (trace m).
Proof.
  intros Hc. destruct (Hc m) as [evs [-> Hevs]].
  rewrite notifications_app, (notifications_silent evs Hevs).
  apply app_nil_r.
Qed.

Section Destroyed.

Context {W : Type}.

Lemma Destroy_state (m : @Machine W) :
  Enabled (setting (timer (machine_of (Destroy m)))) = false /\
  pauseState (timer (machine_of (Destroy m))) = timerDestroyed /\
  notifications (trace (machine_of (Destroy m))) = notifications (trace m).
Proof.
  split; [| split].
  - destruct m as [[c l s p k ev] w tr]. engine_unfold. cbn.
    destruct k; cbn; [| reflexivity]. destruct ev; reflexivity.
  - destruct m as [[c l s p k ev] w tr]. engine_unfold. cbn.
    destruct k; cbn; [| reflexivity]. destruct ev; reflexivity.
  - apply emits_silent. apply emits_Destroy. auto.
Qed.

Lemma destroyed_Tick (m : @Machine W) :
  pauseState (timer m) = timerDestroyed ->
  exists w, Tick m = Done tt (mkMachine (timer m) w (trace m)).
Proof.
  intros Hd. destruct m as [[c l s p k ev] w tr]. cbn in Hd. subst p.
  engine_unfold. cbn. destruct (Now c w) as [now w']. cbn. eauto.
Qed.

Lemma destroyed_Pause (m : @Machine W) :
  pauseState (timer m) = timerDestroyed -> Pause m = Done tt m.
Proof.
  intros Hd. destruct m as [[c l s p k ev] w tr]. cbn in Hd. subst p.
  reflexivity.
Qed.

Lemma destroyed_Resume (m : @Machine W) :
  pauseState (timer m) = timerDestroyed -> Resume m = Done tt m.
Proof.
  intros Hd. destruct m as [[c l s p k ev] w tr]. cbn in Hd. subst p.
  reflexivity.
Qed.

(** Tick, Pause and Resume leave a destroyed timer and the log as they
    are; only the clock that Tick reads may move the world. *)
Lemma destroyed_calls_valid (cs : list Call) (m : @Machine W) :
  pauseState (timer m) = timerDestroyed ->
  forallb valid_on_destroyed cs = true ->
  exists w, calls cs m = Done tt (mkMachine (timer m) w (trace m)).
Proof.
  revert m. induction cs as [| c cs IH]; intros m Hd Hvalid.
  - exists (world m). destruct m. reflexivity.
  - cbn in Hvalid. apply andb_prop in Hvalid as [Hc Hcs].
    cbn [calls]. unfold bind at 1.
    assert (exists w, call c m = Done tt (mkMachine (timer m) w (trace m)))
      as [w ->].
    { destruct c; try discriminate; cbn [call].
      - now apply destroyed_Tick.
      - exists (world m). rewrite destroyed_Pause by assumption. now destruct m.
      - exists (world m). rewrite destroyed_Resume by assumption. now destruct m. }
    destruct (IH (mkMachine (timer m) w (trace m)) Hd Hcs) as [w' ->].
    exists w'. reflexivity.
Qed.

(** Whatever is called on it, a destroyed timer stays destroyed and its
    listener is not called. *)
Lemma destroyed_call (c : Call) (m : @Machine W) :
  pauseState (timer m) = timerDestroyed ->
  pauseState (timer (machine_of (call c m))) = timerDestroyed /\
  notifications (trace (machine_of (call c m))) = notifications (trace m).
Proof.
  intros Hd. destruct c; cbn [call].
  - destruct (destroyed_Tick m Hd) as [w ->]. auto.
  - destruct m as [[c l s p k ev] w tr]. cbn in Hd. subst p.
    engine_unfold. cbn. destruct (Now c w). cbn. auto.
  - destruct m as [[c l s0 p k ev] w tr]. cbn in Hd. subst p.
    engine_unfold. cbn. destruct (Now c w). cbn. auto.
  - destruct m as [[c l s0 p k ev] w tr]. cbn in Hd. subst p.
    engine_unfold. cbn. destruct (Now c w). cbn. auto.
  - rewrite destroyed_Pause by assumption. auto.
  - rewrite destroyed_Resume by assumption. auto.
  - destruct (Destroy_state m) as [_ [Hp Hn]]. auto.
  - split; [| apply emits_silent; apply emits_SetClock; auto].
    destruct m as [[c0 l s0 p k ev] w tr]. cbn in Hd. subst p.
    engine_unfold. cbn.
    destruct s as [[] next per]; cbn;
      [destruct (Now c w) as [now w1]; cbn |];
      destruct (Nat.eqb (clock_id c0) (clock_id c)); cbn;
      repeat match goal with
        | |- context [EventRegister ?c ?w] => destruct (EventRegister c w); cbn
        | |- context [WallTimeUntil ?c ?a ?b ?w] =>
            destruct (WallTimeUntil c a b w); cbn
        | |- context [match ?k with Some _ => _ | None => _ end] =>
            is_var k; destruct k; cbn
        end; reflexivity.
Qed.

Lemma destroyed_calls (cs : list Call) (m : @Machine W) :
  pauseState (timer m) = timerDestroyed ->
  pauseState (timer (machine_of (calls cs m))) = timerDestroyed /\
  notifications (trace (machine_of (calls cs m))) = notifications (trace m).
Proof.
  revert m. induction cs as [| c cs IH]; intros m Hd; [cbn; auto |].
  cbn [calls]. unfold bind.
  destruct (destroyed_call c m Hd) as [Hp Hn].
  destruct (call c m) as [[] m' | msg m']; cbn in Hp, Hn.
  - destruct (IH m' Hp) as [Hp' Hn']. split; congruence.
  - cbn. auto.
Qed.

End Destroyed.

(** C8: [Destroy] leaves the setting disabled and the timer destroyed.
    From then on Pause and Resume do nothing, and any sequence of Tick,
    Pause and Resume leaves the timer and the log of its calls as they are;
    and after any calls at all the timer is still destroyed and the
    listener has not been called again. *)
Theorem Destroy_terminal {W : Type} (m : @Machine W) (cs : list Call) :
  forallb valid_on_destroyed cs = true ->
  let m1 := machine_of (Destroy m) in
  Enabled (setting (timer m1)) = false /\
  pauseState (timer m1) = timerDestroyed /\
  notifications (trace m1) = notifications (trace m) /\
  Pause m1 = Done tt m1 /\
  Resume m1 = Done tt m1 /\
  (exists w, calls cs m1 = Done tt (mkMachine (timer m1) w (trace m1))) /\
  (forall cs' : list Call,
     pauseState (timer (machine_of (calls cs' m1))) = timerDestroyed /\
     notifications (trace (machine_of (calls cs' m1))) =
       notifications (trace m1)).
Proof.
  intros Hvalid m1.
  destruct (Destroy_state m) as [He [Hp Hn]]. fold m1 in He, Hp, Hn.
  repeat split; try assumption.
  - now apply destroyed_Pause.
  - now apply destroyed_Resume.
  - now apply destroyed_calls_valid.
  - now apply destroyed_calls.
  - now apply destroyed_calls.
Qed.

Lemma Destroy_terminal_witness :
  let m := Scenario.timer_with (Scenario.clock_at 35) Scenario.keeping
             (mkSetting true (mkTime 10) 10) in
  let m1 := machine_of (Destroy m) in
  pauseState (timer m) = timerUnpaused /\
  Enabled (setting (timer m)) = true /\
  pauseState (timer m1) = timerDestroyed /\
  Enabled (setting (timer m1)) = false /\
  exists w,
    calls [CallTick; CallPause; CallTick; CallResume; CallTick] m1 =
    Done tt (mkMachine (timer m1) w (trace m1)).
Proof.
  cbv zeta.
  destruct (Destroy_terminal
    (Scenario.timer_with (Scenario.clock_at 35) Scenario.keeping
       (mkSetting true (mkTime 10) 10))
    [CallTick; CallPause; CallTick; CallResume; CallTick] eq_refl)
    as [He [Hp [_ [_ [_ [Hcalls _]]]]]].
  split; [reflexivity |]. split; [reflexivity |].
  split; [exact Hp |]. split; [exact He |]. exact Hcalls.
Defined.

(** ** The scenarios of the specification *)

(** A one-shot timer due at 500 expires once at 1000 and stops. *)
Example scenario_one_shot :
  let m := Scenario.timer_with (Scenario.clock_at 1000) Scenario.keeping
             (mkSetting true (mkTime 500) 0) in
  notifications (trace (machine_of (Tick m))) =
    [(1, mkSetting false (mkTime 500) 0)] /\
  setting (timer (machine_of (Tick m))) = mkSetting false (mkTime 500) 0.
Proof. vm_compute. repeat split. Qed.

(** A timer of period 10 due at 10 has expired three times at 35; a tick
    after the clock is set back to 5 changes nothing. *)
Example scenario_periodic :
  let m := Scenario.timer_with (Scenario.clock_at 35) Scenario.keeping
             (mkSetting true (mkTime 10) 10) in
  let m1 := machine_of (Tick m) in
  let m2 := machine_of
              (bind (SetClock (Scenario.clock_at 5) (setting (timer m1)))
                 (fun _ => Tick) m1) in
  notifications (trace m1) = [(3, mkSetting true (mkTime 40) 10)] /\
  setting (timer m1) = mkSetting true (mkTime 40) 10 /\
  notifications (trace m2) = notifications (trace m1) /\
  setting (timer m2) = mkSetting true (mkTime 40) 10.
Proof. vm_compute. repeat split. Qed.

(** The listener's replacement is what the timer keeps. *)
Example scenario_replacement :
  let m := Scenario.timer_with (Scenario.clock_at 25)
             (Scenario.replacing (mkSetting true (mkTime 100) 100))
             (mkSetting true (mkTime 10) 10) in
  setting (timer (machine_of (Tick m))) = mkSetting true (mkTime 100) 100.
Proof. vm_compute. reflexivity. Qed.

(** SwapAnd before the timer is due: the callback runs once, the old
    setting is returned and the listener is not called. *)
Example scenario_swap :
  let m := Scenario.timer_with (Scenario.clock_at 7) Scenario.keeping
             (mkSetting true (mkTime 10) 5) in
  match SwapAnd (mkSetting true (mkTime 100) 0) Scenario.count_callback m with
  | Done r m' =>
      r = (mkTime 7, mkSetting true (mkTime 10) 5) /\
      setting (timer m') = mkSetting true (mkTime 100) 0 /\
      world m' = 1%nat /\
      notifications (trace m') = []
  | Panic _ _ => False
  end.
Proof. vm_compute. repeat split. Qed.

(** Get on a paused timer panics. *)
Example scenario_get_paused :
  let m := Scenario.timer_with (Scenario.clock_at 7) Scenario.keeping
             (mkSetting true (mkTime 10) 5) in
  match bind Pause (fun _ => Get) m with
  | Done _ _ => False
  | Panic _ m' => pauseState (timer m') = timerPaused
  end.
Proof. vm_compute. reflexivity. Qed.

(** ** Further properties: instants *)

(** X1: [Add] saturates in both directions: it returns the exact sum when
    that is a [Time], [MaxTime] when the sum lies above and [MinTime] when
    it lies below. *)
Theorem Add_clamps (t : Time) (d : Duration) :
  wf_Time t -> in_int64 d ->
  (in_int64 (ns t + d) -> Add t d = mkTime (ns t + d)) /\
  (MaxInt64 < ns t + d -> Add t d = MaxTime) /\
  (ns t + d < MinInt64 -> Add t d = MinTime) /\
  wf_Time (Add t d).
Proof.
  intros Ht Hd. pose proof (Add_saturating t d Ht Hd) as H.
  repeat split.
  - intros Hin. apply Time_eq. cbn [ns]. int64_unfold. lia.
  - intros Hhi. apply Time_eq. int64_unfold. lia.
  - intros Hlo. apply Time_eq. int64_unfold. lia.
  - int64_unfold. lia.
  - int64_unfold. lia.
Qed.

Lemma Add_clamps_witness :
  Add (mkTime 10) 25 = mkTime 35 /\
  Add (mkTime (MaxInt64 - 1)) 5 = MaxTime /\
  Add (mkTime (MinInt64 + 1)) (-5) = MinTime.
Proof.
  assert (H10 : wf_Time (mkTime 10)) by (vm_compute; intuition congruence).
  assert (Hhi : wf_Time (mkTime (MaxInt64 - 1))) by (vm_compute; intuition congruence).
  assert (Hlo : wf_Time (mkTime (MinInt64 + 1))) by (vm_compute; intuition congruence).
  assert (H25 : in_int64 25) by (vm_compute; intuition congruence).
  assert (H5 : in_int64 5) by (vm_compute; intuition congruence).
  assert (Hm5 : in_int64 (-5)) by (vm_compute; intuition congruence).
  destruct (Add_clamps _ _ H10 H25) as [Hexact _].
  destruct (Add_clamps _ _ Hhi H5) as [_ [Hmax _]].
  destruct (Add_clamps _ _ Hlo Hm5) as [_ [_ [Hmin _]]].
  split; [apply Hexact; vm_compute; intuition congruence |].
  split; [apply Hmax; vm_compute; reflexivity |].
  apply Hmin; vm_compute; reflexivity.
Defined.

(** X2: [Add] never wraps around: a duration that is not negative never
    gives an earlier instant, one that is not positive never a later one,
    and [Add] of one duration keeps the order of two instants. *)
Theorem Add_keeps_order (t u : Time) (d : Duration) :
  wf_Time t -> wf_Time u -> in_int64 d ->
  (0 <= d -> Before (Add t d) t = false) /\
  (d <= 0 -> After (Add t d) t = false) /\
  (ns t <= ns u -> ns (Add t d) <= ns (Add u d)).
Proof.
  intros Ht Hu Hd.
  pose proof (Add_saturating t d Ht Hd) as HT.
  pose proof (Add_saturating u d Hu Hd) as HU.
  unfold Before, After. repeat split.
  - intros Hpos. apply Z.ltb_ge. int64_unfold. lia.
  - intros Hneg. rewrite Z.gtb_ltb. apply Z.ltb_ge. int64_unfold. lia.
  - intros Hle. int64_unfold. lia.
Qed.

Lemma Add_keeps_order_witness :
  Before (Add (mkTime (MaxInt64 - 1)) 5) (mkTime (MaxInt64 - 1)) = false /\
  ns (Add (mkTime 3) 5) <= ns (Add (mkTime (MaxInt64 - 1)) 5).
Proof.
  assert (H3 : wf_Time (mkTime 3)) by (vm_compute; intuition congruence).
  assert (Hhi : wf_Time (mkTime (MaxInt64 - 1))) by (vm_compute; intuition congruence).
  assert (H5 : in_int64 5) by (vm_compute; intuition congruence).
  destruct (Add_keeps_order _ _ 5 Hhi H3 H5) as [Hb _].
  destruct (Add_keeps_order _ _ 5 H3 Hhi H5) as [_ [_ Hm]].
  split; [apply Hb; lia |]. apply Hm. vm_compute. discriminate.
Defined.

(** X3: [Sub] is the difference of two instants clamped to the range of
    [Duration]; so [u.Sub(t)] is the negation of [t.Sub(u)] unless the
    latter is one of the two bounds. *)
Theorem Sub_clamps (t u : Time) :
  wf_Time t -> wf_Time u ->
  Sub t u = Z.max MinDuration (Z.min MaxDuration (ns t - ns u)) /\
  (Sub t u <> MinDuration -> Sub t u <> MaxDuration -> Sub u t = - Sub t u).
Proof.
  intros Ht Hu.
  rewrite (Sub_saturating t u Ht Hu), (Sub_saturating u t Hu Ht).
  unfold MinDuration, MaxDuration. split; [reflexivity |].
  int64_unfold. lia.
Qed.

Lemma Sub_clamps_witness :
  Sub MaxTime (mkTime (-1)) = MaxDuration /\
  Sub (mkTime 5) (mkTime 40) = - Sub (mkTime 40) (mkTime 5).
Proof.
  assert (Hm1 : wf_Time (mkTime (-1))) by (vm_compute; intuition congruence).
  assert (H5 : wf_Time (mkTime 5)) by (vm_compute; intuition congruence).
  assert (H40 : wf_Time (mkTime 40)) by (vm_compute; intuition congruence).
  destruct (Sub_clamps MaxTime (mkTime (-1)) wf_MaxTime Hm1) as [Heq _].
  destruct (Sub_clamps (mkTime 40) (mkTime 5) H40 H5) as [_ Hneg].
  split; [rewrite Heq; reflexivity |].
  apply Hneg; vm_compute; discriminate.
Defined.

(** X4: the other round trip of C5: where [t.Add(d)] does not saturate,
    [t.Add(d).Sub(t)] is [d]. *)
Theorem Add_Sub_round_trip (t : Time) (d : Duration) :
  wf_Time t -> in_int64 d -> in_int64 (ns t + d) ->
  Sub (Add t d) t = d.
Proof.
  intros Ht Hd Hsum.
  rewrite Sub_saturating by (try assumption; now apply wf_Add).
  rewrite Add_saturating by assumption.
  int64_unfold. lia.
Qed.

Lemma Add_Sub_round_trip_witness :
  Sub (Add (mkTime (-7)) 100) (mkTime (-7)) = 100.
Proof.
  apply Add_Sub_round_trip; vm_compute; intuition congruence.
Defined.

(** X5: [Unix] splits an instant into seconds and nanoseconds with
    [seconds * 1e9 + nanoseconds = t], the nanoseconds being less than a
    second in size and of the sign of [t]; its seconds are [Seconds], which
    rounds toward zero. *)
Theorem Unix_decomposition (t : Time) :
  fst (Unix t) * 1000000000 + snd (Unix t) = ns t /\
  Z.abs (snd (Unix t)) < 1000000000 /\
  0 <= snd (Unix t) * ns t /\
  Seconds t = fst (Unix t) /\
  Z.abs (Seconds t * 1000000000) <= Z.abs (ns t).
Proof.
  unfold Unix, Seconds, Nanoseconds, Second_Nanoseconds. cbn [fst snd ns].
  pose proof (Z.quot_rem' (ns t) 1000000000) as Hqr.
  pose proof (Z.rem_bound_abs (ns t) 1000000000 ltac:(lia)) as Hb.
  pose proof (Z.rem_sign_mul (ns t) 1000000000 ltac:(lia)) as Hsign.
  repeat split; try lia.
  destruct (Z_lt_le_dec (ns t) 0) as [Hneg | Hpos].
  - assert (Z.rem (ns t) 1000000000 <= 0) by nia. lia.
  - destruct (Z.eq_dec (ns t) 0) as [Hz | Hnz].
    + rewrite Hz. reflexivity.
    + assert (0 <= Z.rem (ns t) 1000000000) by nia. lia.
Qed.

(** X6: [FromUnix] undoes [Unix] on every instant that is not negative,
    and on the negative ones that are whole seconds; on every other
    negative instant it returns [MaxTime]. *)
Theorem FromUnix_Unix (t : Time) :
  wf_Time t ->
  FromUnix (fst (Unix t)) (snd (Unix t)) =
  if (ns t <? 0) && negb (snd (Unix t) =? 0) then MaxTime else t.
Proof.
  intros Ht. unfold Unix, FromUnix, Second_Nanoseconds. cbn [fst snd].
  pose proof (Z.quot_rem' (ns t) 1000000000) as Hqr.
  pose proof (Z.rem_bound_abs (ns t) 1000000000 ltac:(lia)) as Hb.
  assert (Hsign : 0 <= Z.rem (ns t) 1000000000 * ns t)
    by (apply Z.rem_sign_mul; lia).
  set (s := Z.quot (ns t) 1000000000) in *.
  set (n := Z.rem (ns t) 1000000000) in *.
  change (Z.quot MaxInt64 1000000000) with 9223372036.
  assert (Hs : -9223372036 <= s <= 9223372036) by (int64_unfold; nia).
  destruct (Z.gtb_spec s 9223372036) as [Hgt | _]; [lia |].
  unfold mul. rewrite int64_id by (int64_unfold; lia).
  destruct (Z.ltb_spec (ns t) 0) as [Hneg | Hpos]; cbn [andb].
  - assert (Hn : n <= 0) by nia.
    destruct (Z.eqb_spec n 0) as [Hz | Hnz]; cbn [negb].
    + rewrite Hz in *. unfold sub. rewrite int64_id by (int64_unfold; lia).
      destruct (Z.gtb_spec (s * 1000000000) (MaxInt64 - 0)) as [Hgt | _];
        [int64_unfold; lia |].
      unfold add. rewrite int64_id by (int64_unfold; lia).
      apply Time_eq. cbn [ns]. lia.
    + unfold sub. rewrite int64_high by (int64_unfold; lia).
      destruct (Z.gtb_spec (s * 1000000000) (MaxInt64 - n - modulus))
        as [_ | Hle]; [reflexivity | int64_unfold; lia].
  - assert (Hn : 0 <= n) by nia.
    unfold sub. rewrite int64_id by (int64_unfold; lia).
    destruct (Z.gtb_spec (s * 1000000000) (MaxInt64 - n)) as [Hgt | _];
      [int64_unfold; lia |].
    unfold add. rewrite int64_id by (int64_unfold; lia).
    apply Time_eq. cbn [ns]. lia.
Qed.

Lemma FromUnix_Unix_witness :
  FromUnix (fst (Unix (mkTime 1500000000))) (snd (Unix (mkTime 1500000000))) =
    mkTime 1500000000 /\
  FromUnix (fst (Unix (mkTime (-1)))) (snd (Unix (mkTime (-1)))) = MaxTime.
Proof.
  assert (Hp : wf_Time (mkTime 1500000000)) by (vm_compute; intuition congruence).
  assert (Hn : wf_Time (mkTime (-1))) by (vm_compute; intuition congruence).
  split.
  - rewrite (FromUnix_Unix _ Hp). reflexivity.
  - rewrite (FromUnix_Unix _ Hn). reflexivity.
Defined.

(** X7: from [-9223372036] seconds on, [FromSeconds] is the count of
    nanoseconds capped at [MaxInt64]; and [Seconds] gives back every count
    of seconds of at most [9223372036] in size. *)
Theorem FromSeconds_caps (s : Z) :
  -9223372036 <= s ->
  ns (FromSeconds s) = Z.min MaxInt64 (s * 1000000000) /\
  (s <= 9223372036 -> Seconds (FromSeconds s) = s).
Proof.
  intros Hlo.
  destruct (Z_le_gt_dec s 9223372036) as [Hle | Hgt].
  - rewrite FromSeconds_representable by (int64_unfold; lia).
    cbn [ns]. split; [int64_unfold; lia |].
    intros _. unfold Seconds, Nanoseconds, Second_Nanoseconds. cbn [ns].
    apply Z.quot_mul. lia.
  - rewrite FromSeconds_positive_overflow by (int64_unfold; lia).
    split; [int64_unfold; lia | lia].
Qed.

Lemma FromSeconds_caps_witness :
  ns (FromSeconds 9223372037) = MaxInt64 /\
  Seconds (FromSeconds (-9223372036)) = -9223372036.
Proof.
  destruct (FromSeconds_caps 9223372037 ltac:(lia)) as [Hcap _].
  destruct (FromSeconds_caps (-9223372036) ltac:(lia)) as [_ Hback].
  split; [rewrite Hcap; reflexivity | apply Hback; lia].
Defined.

(** X8: from [-9223372036] seconds on and for nanoseconds that are not
    negative, [FromUnix] is the instant [s * 1e9 + ns] capped at
    [MaxInt64]. *)
Theorem FromUnix_caps (s n : Z) :
  -9223372036 <= s -> 0 <= n <= MaxInt64 ->
  ns (FromUnix s n) = Z.min MaxInt64 (s * 1000000000 + n).
Proof.
  intros Hs Hn. unfold FromUnix, Second_Nanoseconds.
  change (Z.quot MaxInt64 1000000000) with 9223372036.
  destruct (Z.gtb_spec s 9223372036) as [Hgt | Hle].
  - int64_unfold. lia.
  - unfold mul. rewrite int64_id by (int64_unfold; lia).
    unfold sub. rewrite int64_id by (int64_unfold; lia).
    destruct (Z.gtb_spec (s * 1000000000) (MaxInt64 - n)) as [Hgt | Hfit].
    + int64_unfold. lia.
    + unfold add. rewrite int64_id by (int64_unfold; lia).
      cbn [ns]. int64_unfold. lia.
Qed.

Lemma FromUnix_caps_witness :
  ns (FromUnix 9223372036 854775808) = MaxInt64 /\
  ns (FromUnix (-5) 999999999) = -4000000001.
Proof.
  split.
  - rewrite FromUnix_caps by (vm_compute; intuition congruence). reflexivity.
  - rewrite FromUnix_caps by (vm_compute; intuition congruence). reflexivity.
Defined.

(** ** Further properties: settings *)

(** A due periodic timer whose advance stays within the range of
    [Duration] and [Time]: the setting and the count [At] returns. *)
Lemma At_due_exact (s : Setting) (now : Time) :
  wf_Setting s -> wf_Time now ->
  Enabled s = true -> 0 < Period s -> ns (Next s) <= ns now ->
  (1 + (ns now - ns (Next s)) / Period s) * Period s <= MaxInt64 ->
  ns (Next s) + (1 + (ns now - ns (Next s)) / Period s) * Period s <= MaxInt64 ->
  At s now =
  (set_Next
     (mkTime (ns (Next s) + (1 + (ns now - ns (Next s)) / Period s) * Period s)) s,
   1 + (ns now - ns (Next s)) / Period s).
Proof.
  intros [Hnext Hper] Hnow He Hp Hdue Hprod Hsum.
  set (d := ns now - ns (Next s)) in *.
  assert (Hd : 0 <= d) by (subst d; lia).
  assert (Hdiv' : d < (1 + d / Period s) * Period s).
  { pose proof (Z.mul_succ_div_gt d (Period s) Hp). lia. }
  assert (Hq : 0 <= d / Period s) by (apply Z.div_pos; lia).
  destruct (Sub_due now (Next s) Hnow Hnext Hdue) as [HS HSr].
  fold d in HS.
  assert (HS' : Sub now (Next s) = d) by (int64_unfold; lia).
  rewrite At_due by (try assumption; lia).
  destruct (expirations_due d (Period s)) as [Hexp [Hexpr Hup]];
    [int64_unfold; lia | assumption | lia |].
  rewrite HS'. rewrite Hexp.
  rewrite (uint64_id (Period s)) in * by (int64_unfold; lia).
  unfold umul. rewrite uint64_id by (int64_unfold; nia).
  rewrite int64_id by (int64_unfold; nia).
  f_equal. f_equal. apply Time_eq.
  rewrite Add_saturating by (try assumption; int64_unfold; nia).
  cbn [ns]. int64_unfold. nia.
Qed.

(** X9: a relative specification read back at the instant it was armed
    is the one given, as long as the first expiration does not saturate. *)
Theorem SpecFromSetting_round_trip (value interval : Duration) (now : Time) :
  wf_Time now -> 0 <= value <= MaxInt64 -> ns now + value <= MaxInt64 ->
  snd (SettingFromSpecAt value interval now) = None /\
  SpecFromSetting now (fst (SettingFromSpecAt value interval now)) =
    (value, interval).
Proof.
  intros Hnow Hv Hsum. unfold SettingFromSpecAt.
  destruct (Z.ltb_spec value 0) as [Hneg | _]; [lia |].
  destruct (Z.eqb_spec value 0) as [-> | Hnz]; cbn [fst snd].
  - split; reflexivity.
  - split; [reflexivity |].
    unfold SpecFromSetting. cbn [Enabled Next Period negb].
    assert (Hval : in_int64 value) by (int64_unfold; lia).
    rewrite Sub_saturating by (try assumption; now apply wf_Add).
    rewrite Add_saturating by assumption.
    f_equal. int64_unfold. lia.
Qed.

Lemma SpecFromSetting_round_trip_witness :
  SpecFromSetting (mkTime 1000) (fst (SettingFromSpecAt 250 50 (mkTime 1000))) =
    (250, 50).
Proof.
  apply SpecFromSetting_round_trip; vm_compute; intuition congruence.
Defined.

(** X10: a timer armed with a positive relative value has not expired at
    the instant it was armed, unless that instant is [MaxTime]. *)
Theorem armed_timer_not_due (value interval : Duration) (now : Time) :
  wf_Time now -> in_int64 value -> 0 < value -> ns now < MaxInt64 ->
  At (fst (SettingFromSpecAt value interval now)) now =
    (mkSetting true (Add now value) interval, 0).
Proof.
  intros Hnow Hval Hpos Hmax. unfold SettingFromSpecAt.
  destruct (Z.ltb_spec value 0) as [Hneg | _]; [lia |].
  destruct (Z.eqb_spec value 0) as [Hz | _]; [lia |].
  cbn [fst]. apply At_not_due. cbn [Next].
  rewrite Add_saturating by assumption. int64_unfold. lia.
Qed.

Lemma armed_timer_not_due_witness :
  At (fst (SettingFromSpecAt 1 0 (mkTime 7))) (mkTime 7) =
    (mkSetting true (mkTime 8) 0, 0).
Proof.
  rewrite armed_timer_not_due by (vm_compute; intuition congruence).
  reflexivity.
Defined.

(** X11: a one-shot timer expires at most once: over two advances to any
    two instants the counts are 0 or 1 and sum to at most 1, an expiration
    disables the setting, and [Next] never moves. *)
Theorem one_shot_expires_once (s : Setting) (now now' : Time) :
  Period s = 0 ->
  let r1 := At s now in
  let r2 := At (fst r1) now' in
  0 <= snd r1 /\ 0 <= snd r2 /\ snd r1 + snd r2 <= 1 /\
  (snd r1 = 1 -> Enabled (fst r1) = false) /\
  Next (fst r2) = Next s /\ Period (fst r2) = 0.
Proof.
  intros Hp. cbv zeta.
  destruct (At_cases s now) as [[-> _] | [[-> _] | [_ [_ [_ Hnz]]]]];
    [| | contradiction]; cbn [fst snd].
  - destruct (At_cases s now') as [[-> _] | [[-> _] | [_ [_ [_ Hnz]]]]];
      [| | contradiction]; cbn [fst snd set_Enabled Next Period];
      repeat split; (lia || congruence).
  - rewrite At_disabled by reflexivity. cbn [fst snd set_Enabled Next Period].
    repeat split; (lia || congruence).
Qed.

Lemma one_shot_expires_once_witness :
  snd (At (mkSetting true (mkTime 500) 0) (mkTime 1000)) = 1 /\
  snd (At (fst (At (mkSetting true (mkTime 500) 0) (mkTime 1000))) MaxTime) = 0.
Proof.
  pose proof (one_shot_expires_once (mkSetting true (mkTime 500) 0)
                (mkTime 1000) MaxTime eq_refl) as [_ [H2 [Hsum _]]].
  split; [reflexivity |].
  change (snd (At (mkSetting true (mkTime 500) 0) (mkTime 1000))) with 1 in Hsum.
  lia.
Defined.

(** X12: [At] counts an expiration exactly when the setting is enabled and
    [Next] is not after [now]; it never enables a setting; and it keeps the
    fields within [int64], the count within [uint64] and the period not
    negative. *)
Theorem At_expires_iff_due (s : Setting) (now : Time) :
  wf_Setting s -> wf_Time now ->
  (0 < snd (At s now) <-> Enabled s = true /\ ns (Next s) <= ns now) /\
  (Enabled (fst (At s now)) = true -> Enabled s = true) /\
  wf_Setting (fst (At s now)) /\
  in_uint64 (snd (At s now)) /\
  (Period_invariant s -> Period_invariant (fst (At s now))).
Proof.
  intros [Hnext Hper] Hnow.
  destruct (At_cases s now) as [[-> H] | [[-> H] | [-> [He [Hdue Hp]]]]];
    cbn [fst snd set_Enabled set_Next Enabled Next Period].
  - split; [| split; [| split; [| split]]].
    + split; [lia |]. intros [He Hdue]. destruct H; [congruence | lia].
    + trivial.
    + now split.
    + int64_unfold. lia.
    + trivial.
  - destruct H as [He [Hdue Hp]].
    split; [| split; [| split; [| split]]].
    + split; [auto | lia].
    + discriminate.
    + now split.
    + int64_unfold. lia.
    + trivial.
  - destruct (Sub_due now (Next s) Hnow Hnext Hdue) as [_ HSr].
    destruct (expirations_due (Sub now (Next s)) (Period s)) as [Hexp [Hexpr _]];
      [assumption | assumption | assumption |].
    rewrite Hexp.
    split; [| split; [| split; [| split]]].
    + split; [auto | lia].
    + trivial.
    + split; [| assumption]. cbn [Next].
      apply wf_Add; [assumption | apply int64_range].
    + int64_unfold. lia.
    + trivial.
Qed.

Lemma At_expires_iff_due_witness :
  0 < snd (At (mkSetting true (mkTime 10) 10) (mkTime 10)) /\
  ~ 0 < snd (At (mkSetting true (mkTime 10) 10) (mkTime 9)).
Proof.
  assert (Hwf : wf_Setting (mkSetting true (mkTime 10) 10))
    by (vm_compute; intuition congruence).
  assert (H10 : wf_Time (mkTime 10)) by (vm_compute; intuition congruence).
  assert (H9 : wf_Time (mkTime 9)) by (vm_compute; intuition congruence).
  destruct (At_expires_iff_due _ _ Hwf H10) as [[_ Hdue] _].
  destruct (At_expires_iff_due _ _ Hwf H9) as [[Hnot _] _].
  split.
  - apply Hdue. split; [reflexivity | vm_compute; discriminate].
  - intros H. apply Hnot in H. destruct H as [_ H]. vm_compute in H.
    apply H. reflexivity.
Defined.

(** X13: within the bounds of the amended C2, the setting [At] returns
    reads back with a positive time to its next expiration if it is enabled
    (the distance to [Next], capped at [MaxDuration]), and with none if it
    is disabled. *)
Theorem advanced_setting_time_left (s : Setting) (now : Time) :
  wf_Setting s -> Period_invariant s -> wf_Time now ->
  snd (At s now) * Period s <= MaxInt64 ->
  (0 < snd (At s now) * Period s -> ns now < MaxInt64) ->
  fst (SpecFromSetting now (fst (At s now))) =
    (if Enabled (fst (At s now))
     then Z.min MaxDuration (ns (Next (fst (At s now))) - ns now) else 0) /\
  (Enabled (fst (At s now)) = true ->
     0 < fst (SpecFromSetting now (fst (At s now)))).
Proof.
  intros Hwf Hinv Hnow Hprod Hmax.
  assert (Hlater : Enabled (fst (At s now)) = true ->
                   ns now < ns (Next (fst (At s now)))).
  { destruct (At_cases s now) as [[Heq H] | [[Heq H] | [Heq [He [Hdue Hp]]]]];
      rewrite Heq in *; cbn [fst snd set_Enabled set_Next Enabled Next] in *.
    - intros He. destruct H; [congruence | assumption].
    - discriminate.
    - intros _. unfold Period_invariant in Hinv.
      destruct Hwf as [Hnext Hper].
      destruct (Sub_due now (Next s) Hnow Hnext Hdue) as [_ HSr].
      destruct (expirations_due (Sub now (Next s)) (Period s))
        as [Hexp [Hexpr _]]; [assumption | assumption | lia |].
      apply At_due_next; try assumption; try lia; now split. }
  assert (Hwf' : wf_Time (Next (fst (At s now)))).
  { destruct (At_cases s now) as [[Heq _] | [[Heq _] | [Heq _]]];
      rewrite Heq; cbn [fst set_Enabled set_Next Next];
      try (apply Hwf).
    apply wf_Add; [apply Hwf | apply int64_range]. }
  unfold SpecFromSetting.
  destruct (Enabled (fst (At s now))); cbn [negb fst].
  - specialize (Hlater eq_refl).
    rewrite Sub_saturating by assumption.
    split; [| intros _]; int64_unfold; lia.
  - split; [reflexivity | discriminate].
Qed.

Lemma advanced_setting_time_left_witness :
  fst (SpecFromSetting (mkTime 35)
         (fst (At (mkSetting true (mkTime 10) 10) (mkTime 35)))) = 5.
Proof.
  destruct (advanced_setting_time_left (mkSetting true (mkTime 10) 10) (mkTime 35)
              ltac:(vm_compute; intuition congruence)
              ltac:(vm_compute; congruence)
              ltac:(vm_compute; intuition congruence)
              ltac:(vm_compute; congruence)
              ltac:(intros _; vm_compute; reflexivity))
    as [Heq _].
  rewrite Heq. reflexivity.
Defined.

(** X14: advancing in two steps loses and repeats no expiration: for
    [now1 <= now2], within the bounds of the amended C1 for the advance to
    [now2], advancing to [now1] and then to [now2] gives the setting of the
    advance to [now2] at once, and the two counts add up to its count. *)
Theorem At_in_two_steps (s : Setting) (now1 now2 : Time) :
  wf_Setting s -> Period_invariant s -> wf_Time now1 -> wf_Time now2 ->
  ns now1 <= ns now2 ->
  (1 + (ns now2 - ns (Next s)) / Period s) * Period s <= MaxInt64 ->
  ns (Next s) + (1 + (ns now2 - ns (Next s)) / Period s) * Period s <= MaxInt64 ->
  fst (At (fst (At s now1)) now2) = fst (At s now2) /\
  snd (At s now1) + snd (At (fst (At s now1)) now2) = snd (At s now2).
Proof.
  intros Hwf Hinv Hn1 Hn2 Hle Hprod Hsum.
  unfold Period_invariant in Hinv.
  destruct (Enabled s) eqn:He;
    [| rewrite (At_disabled s now1 He); cbn [fst snd];
       rewrite (At_disabled s now2 He); cbn [fst snd]; split; [reflexivity | lia]].
  destruct (Z.lt_ge_cases (ns now1) (ns (Next s))) as [Hearly | Hdue1];
    [rewrite (At_not_due s now1 Hearly); cbn [fst snd]; split; [reflexivity | lia] |].
  assert (Hdue2 : ns (Next s) <= ns now2) by lia.
  destruct (Z.eq_dec (Period s) 0) as [Hz | Hnz].
  - rewrite (At_one_shot s now1 He Hdue1 Hz), (At_one_shot s now2 He Hdue2 Hz).
    cbn [fst snd]. rewrite At_disabled by reflexivity. cbn [fst snd].
    split; [reflexivity | lia].
  - assert (Hp : 0 < Period s) by lia.
    set (p := Period s) in *. set (n0 := ns (Next s)) in *.
    assert (Hd1 : 0 <= (ns now1 - n0) / p) by (apply Z.div_pos; lia).
    assert (Hmono : (ns now1 - n0) / p <= (ns now2 - n0) / p)
      by (apply Z.div_le_mono; lia).
    assert (Hgt1 : ns now1 - n0 < (1 + (ns now1 - n0) / p) * p).
    { pose proof (Z.mul_succ_div_gt (ns now1 - n0) p Hp). lia. }
    assert (Hgt2 : ns now2 - n0 < (1 + (ns now2 - n0) / p) * p).
    { pose proof (Z.mul_succ_div_gt (ns now2 - n0) p Hp). lia. }
    assert (Hb1 : (1 + (ns now1 - n0) / p) * p <= (1 + (ns now2 - n0) / p) * p)
      by nia.
    rewrite (At_due_exact s now1) by (try assumption; fold p n0; lia).
    rewrite (At_due_exact s now2) by (try assumption; fold p n0; lia).
    fold p n0. cbn [fst snd].
    set (e1 := 1 + (ns now1 - n0) / p) in *.
    set (e2 := 1 + (ns now2 - n0) / p) in *.
    set (s1 := set_Next (mkTime (n0 + e1 * p)) s).
    assert (Hwf1 : wf_Setting s1).
    { destruct Hwf as [Hnext Hper]. split; [| exact Hper].
      subst s1. cbn [set_Next Next]. unfold n0 in *. int64_unfold. lia. }
    destruct (Z.lt_ge_cases (ns now2) (n0 + e1 * p)) as [Hnot | Hagain].
    + rewrite (At_not_due s1 now2) by (subst s1; cbn [set_Next Next ns]; exact Hnot).
      cbn [fst snd].
      assert (Heq : e2 = e1).
      { assert ((ns now2 - n0) / p < e1)
          by (apply Z.div_lt_upper_bound; [lia | nia]).
        lia. }
      rewrite Heq. split; [reflexivity | lia].
    + assert (Hshift :
        (ns now2 - (n0 + e1 * p)) / p = (ns now2 - n0) / p - e1).
      { replace (ns now2 - (n0 + e1 * p)) with ((ns now2 - n0) + (- e1) * p)
          by lia.
        rewrite Z.div_add by lia. lia. }
      assert (Hq : 0 <= (ns now2 - (n0 + e1 * p)) / p)
        by (apply Z.div_pos; lia).
      pose proof (At_due_exact s1 now2 Hwf1 Hn2) as Hat.
      subst s1. cbn [set_Next Next Period Enabled ns] in Hat. fold p in Hat.
      rewrite Hshift in Hat.
      rewrite Hat by (try assumption; nia).
      cbn [fst snd set_Next Next Period Enabled].
      split; [| lia].
      unfold set_Next. cbn [Enabled Next Period].
      f_equal. apply Time_eq. cbn [ns]. lia.
Qed.

Lemma At_in_two_steps_witness :
  let s := mkSetting true (mkTime 10) 10 in
  snd (At s (mkTime 25)) = 2 /\
  snd (At (fst (At s (mkTime 25))) (mkTime 47)) = 2 /\
  snd (At s (mkTime 47)) = 4 /\
  fst (At (fst (At s (mkTime 25))) (mkTime 47)) = fst (At s (mkTime 47)).
Proof.
  cbv zeta.
  destruct (At_in_two_steps (mkSetting true (mkTime 10) 10) (mkTime 25) (mkTime 47)
              ltac:(vm_compute; intuition congruence)
              ltac:(vm_compute; congruence)
              ltac:(vm_compute; intuition congruence)
              ltac:(vm_compute; intuition congruence)
              ltac:(vm_compute; congruence)
              ltac:(vm_compute; congruence)
              ltac:(vm_compute; congruence))
    as [Hset Hcount].
  split; [reflexivity |]. split; [reflexivity |]. split; [reflexivity |].
  exact Hset.
Defined.

(** ** Further properties: the engine *)

(** Run a call on a machine whose parts are variables, by cases on what
    the collaborators answer. *)
Ltac engine_run :=
  engine_unfold; cbn;
  repeat (match goal with
          | |- context [Now ?c ?w] => destruct (Now c w) as [? ?]
          | |- context [Nat.eqb ?a ?b] => destruct (Nat.eqb a b) eqn:?
          | |- context [At ?s ?n] => destruct (At s n) as [? ?]
          | |- context [?e >? 0] => is_var e; destruct (Z.gtb_spec e 0)
          | |- context [NotifyTimer ?l ?e ?s ?w] =>
              destruct (NotifyTimer l e s w) as [[? []] ?]
          | |- context [EventRegister ?c ?w] =>
              destruct (EventRegister c w) as [[?|] ?]
          | |- context [Enabled ?s] => is_var s; destruct s as [[] ? ?]
          | |- context [WallTimeUntil ?c ?a ?b ?w] =>
              destruct (WallTimeUntil c a b w) as [? ?]
          | |- context [match ?k with Some _ => _ | None => _ end] =>
              is_var k; destruct k
          | |- context [match ?k with chan_nil => _ | _ => _ end] =>
              is_var k; destruct k
          | |- context [timerPauseState_eqb ?k _] => is_var k; destruct k
          end; cbn).

Section EngineMore.

Context {W : Type}.

(** X15: [init] is idempotent: once it has run, running it again is a
    no-op, and if it panics the second run is not reached. *)
Theorem init_idempotent (m : @Machine W) :
  bind init (fun _ => init) m = init m.
Proof.
  destruct m as [[c l s p k ev] w tr]. destruct k as [k |]; engine_run;
    reflexivity.
Qed.

(** X16: [Pause] and [Resume] are idempotent: twice in a row is once. *)
Theorem Pause_Resume_idempotent (m : @Machine W) :
  bind Pause (fun _ => Pause) m = Pause m /\
  bind Resume (fun _ => Resume) m = Resume m.
Proof.
  destruct m as [[c l s p k ev] w tr].
  split; destruct p; destruct k as [k |]; engine_run; reflexivity.
Qed.

(** X17: while a timer is paused, Tick and Pause change neither the timer
    nor the log: the setting is not advanced and the listener is not
    called, whatever the clock says. *)
Theorem paused_calls_do_nothing (m : @Machine W) (cs : list Call) :
  pauseState (timer m) = timerPaused ->
  forallb valid_on_paused cs = true ->
  exists w, calls cs m = Done tt (mkMachine (timer m) w (trace m)).
Proof.
  revert m. induction cs as [| c cs IH]; intros m Hp Hvalid.
  - exists (world m). destruct m. reflexivity.
  - cbn in Hvalid. apply andb_prop in Hvalid as [Hc Hcs].
    cbn [calls]. unfold bind at 1.
    assert (exists w, call c m = Done tt (mkMachine (timer m) w (trace m)))
      as [w ->].
    { destruct m as [[c0 l s p k ev] w tr]. cbn in Hp. subst p.
      destruct c; try discriminate; cbn [call].
      - engine_run. eauto.
      - engine_run. eauto. }
    destruct (IH (mkMachine (timer m) w (trace m)) Hp Hcs) as [w' ->].
    exists w'. reflexivity.
Qed.

End EngineMore.

Lemma paused_calls_do_nothing_witness :
  let m := machine_of
             (Pause (Scenario.timer_with (Scenario.clock_at 2000)
                       Scenario.keeping (mkSetting true (mkTime 1000) 0))) in
  exists w, calls [CallTick; CallPause; CallTick] m =
            Done tt (mkMachine (timer m) w (trace m)).
Proof.
  cbv zeta.
  apply paused_calls_do_nothing; reflexivity.
Defined.

Section EngineCalls.

Context {W : Type}.

(** X18: on a timer with a kicker, Get and SwapAnd return when the timer
    is unpaused and panic when it is paused or destroyed; a panic leaves
    the timer and the log untouched (the clock has been read). *)
Theorem Get_SwapAnd_panic_iff_not_running (m : @Machine W) (s : Setting)
  (f : Callback) :
  kicker (timer m) <> None ->
  (pauseState (timer m) = timerUnpaused ->
     (exists r m', Get m = Done r m') /\
     (exists r m', SwapAnd s f m = Done r m')) /\
  (pauseState (timer m) <> timerUnpaused ->
     exists w,
       (exists msg, Get m = Panic msg (mkMachine (timer m) w (trace m))) /\
       (exists msg, SwapAnd s f m = Panic msg (mkMachine (timer m) w (trace m)))).
Proof.
  intros Hk. destruct m as [[c l s0 p k ev] w tr]. cbn in Hk.
  destruct k as [k |]; [| contradiction].
  split; intros Hp; cbn in Hp.
  - subst p. split.
    + engine_run; eauto.
    + destruct f; engine_run; eauto.
  - destruct p; [contradiction | |]; cbn [timer world trace];
      engine_unfold; cbn; destruct (Now c w) as [now w0]; cbn; eauto.
Qed.

(** X19: on an unpaused timer, Tick is Get with the result dropped. *)
Theorem Tick_is_Get (m : @Machine W) :
  pauseState (timer m) = timerUnpaused ->
  Tick m = bind Get (fun _ => ret tt) m.
Proof.
  intros Hp. destruct m as [[c l s p k ev] w tr]. cbn in Hp. subst p.
  engine_run; reflexivity.
Qed.

(** X20: with a listener that never asks for a replacement, such as a
    [ChannelNotifier], the setting Get returns is the one the timer holds
    afterwards. *)
Theorem Get_returns_stored_setting (m m' : @Machine W) (now : Time) (s : Setting) :
  (forall exp s0 w, snd (fst (NotifyTimer (listener (timer m)) exp s0 w)) = false) ->
  Get m = Done (now, s) m' ->
  setting (timer m') = s /\ now = fst (Now (clock (timer m)) (world m)).
Proof.
  intros Hkeep. destruct m as [[c l s0 p k ev] w tr]. cbn in Hkeep.
  engine_unfold. cbn.
  destruct (Now c w) as [now0 w0]. cbn.
  destruct p; cbn; try discriminate.
  rewrite Nat.eqb_refl. cbn.
  destruct (At s0 now0) as [s1 exp]. cbn.
  destruct (exp >? 0); cbn.
  - specialize (Hkeep exp s1 w0).
    destruct (NotifyTimer l exp s1 w0) as [[repl ok] w1]. cbn in Hkeep.
    subst ok. cbn.
    destruct (Enabled s1); cbn;
      [destruct (WallTimeUntil c (Next s1) now0 w1) as [d w2]; cbn;
       destruct k; cbn |];
      intros H; try discriminate; injection H as <- <- <-; auto.
  - destruct (Enabled s1); cbn;
      [destruct (WallTimeUntil c (Next s1) now0 w0) as [d w2]; cbn;
       destruct k; cbn |];
      intros H; try discriminate; injection H as <- <- <-; auto.
Qed.

(** X21: Tick on a running timer: it reads the clock, advances the setting
    and, only if expirations have accrued, calls the listener once with the
    count and the advanced setting; it installs the listener's replacement
    if there is one; and it arms the kicker with the clock's estimate of
    the time to [Next] if the installed setting is enabled, and leaves the
    kicker alone if not. *)
Theorem Tick_result (m : @Machine W) :
  pauseState (timer m) = timerUnpaused ->
  kicker (timer m) <> None ->
  let t := timer m in
  let now := fst (Now (clock t) (world m)) in
  let w0 := snd (Now (clock t) (world m)) in
  let s1 := fst (At (setting t) now) in
  let exp := snd (At (setting t) now) in
  let r :=
    if exp >? 0 then NotifyTimer (listener t) exp s1 w0 else ((s1, false), w0) in
  let installed := if snd (fst r) then fst (fst r) else s1 in
  let k := WallTimeUntil (clock t) (Next installed) now (snd r) in
  Tick m =
  Done tt
    (mkMachine
       (mkTimer (clock t) (listener t) installed timerUnpaused
          (if Enabled installed then Some (Some (fst k)) else kicker t)
          (events t))
       (if Enabled installed then snd k else snd r)
       (trace m
        ++ (if exp >? 0 then [EvNotify exp s1] else [])
        ++ (if Enabled installed then [EvKickerReset (fst k)] else []))).
Proof.
  intros Hrun Hkick. cbv zeta.
  destruct m as [[c l s0 p k ev] w tr]. cbn in Hrun, Hkick. subst p.
  destruct k as [k |]; [| contradiction].
  engine_unfold. cbn.
  destruct (Now c w) as [now w0]. cbn. rewrite Nat.eqb_refl. cbn.
  destruct (At s0 now) as [s1 exp]. cbn.
  repeat engine_case; rewrite <- ?app_assoc, ?app_nil_r; reflexivity.
Qed.

(** X22: a call of Tick or Get calls the listener at most once, however
    many expirations have accrued, a call of Swap or SwapAnd at most twice,
    and the other calls never. *)
Theorem notifications_per_call (c : Call) (m : @Machine W) :
  (List.length (notifications (trace (machine_of (call c m))))
   <= List.length (notifications (trace m))
      + match c with
        | CallTick | CallGet => 1
        | CallSwap _ | CallSwapAnd _ _ => 2
        | _ => 0
        end)%nat.
Proof.
  destruct m as [[c0 l s0 p k ev] w tr].
  destruct c as [| | s | s [g |] | | | | c s]; cbn [call];
    engine_run; unfold notifications;
    rewrite ?flat_map_app, ?length_app; cbn; lia.
Qed.

End EngineCalls.

Lemma Get_SwapAnd_panic_iff_not_running_witness :
  let m := Scenario.timer_with (Scenario.clock_at 7) Scenario.keeping
             (mkSetting true (mkTime 10) 5) in
  (exists r m', Get m = Done r m') /\
  (exists w msg, Get (machine_of (Pause m)) =
                 Panic msg (mkMachine (timer (machine_of (Pause m))) w
                              (trace (machine_of (Pause m))))).
Proof.
  cbv zeta.
  pose proof (Get_SwapAnd_panic_iff_not_running
                (Scenario.timer_with (Scenario.clock_at 7) Scenario.keeping
                   (mkSetting true (mkTime 10) 5))
                Setting_zero None ltac:(vm_compute; discriminate)) as [Hrun _].
  pose proof (Get_SwapAnd_panic_iff_not_running
                (machine_of (Pause (Scenario.timer_with (Scenario.clock_at 7)
                   Scenario.keeping (mkSetting true (mkTime 10) 5))))
                Setting_zero None ltac:(vm_compute; discriminate)) as [_ Hpaused].
  split.
  - apply Hrun. reflexivity.
  - destruct Hpaused as [w [[msg Hmsg] _]]; [vm_compute; discriminate |].
    exists w, msg. exact Hmsg.
Defined.

Lemma Tick_is_Get_witness :
  let m := Scenario.timer_with (Scenario.clock_at 35) Scenario.keeping
             (mkSetting true (mkTime 10) 10) in
  Tick m = bind Get (fun _ => ret tt) m.
Proof.
  cbv zeta. apply Tick_is_Get. reflexivity.
Defined.

Lemma Get_returns_stored_setting_witness :
  let m := @mkMachine bool
             (mkTimer (mkClock 0%nat (fun w => (mkTime 35, w))
                         (fun _ _ w => (0, w))
                         NoClockEvents_EventRegister NoClockEvents_EventUnregister)
                (ChannelNotifier (fun w => w) (fun _ => true))
                (mkSetting true (mkTime 10) 10) timerUnpaused
                (Some None) chan_open)
             false [] in
  match Get m with
  | Done r m' => setting (timer m') = snd r /\ world m' = true
  | Panic _ _ => False
  end.
Proof.
  cbv zeta.
  match goal with
  | |- match Get ?m with _ => _ end =>
      pose proof (fun now s m' => Get_returns_stored_setting m m' now s
                                    (fun _ _ _ => eq_refl)) as H;
      destruct (Get m) as [[now s] m' | msg m'] eqn:E
  end.
  - destruct (H now s m' eq_refl) as [Hs _]. split; [exact Hs |].
    vm_compute in E. injection E as _ _ <-. reflexivity.
  - vm_compute in E. discriminate.
Defined.

Lemma Tick_result_witness :
  let m := Scenario.timer_with (Scenario.clock_at 25)
             (Scenario.replacing (mkSetting true (mkTime 100) 100))
             (mkSetting true (mkTime 10) 10) in
  match Tick m with
  | Done _ m' =>
      setting (timer m') = mkSetting true (mkTime 100) 100 /\
      kicker (timer m') = Some (Some 75) /\
      notifications (trace m') = [(2, mkSetting true (mkTime 30) 10)]
  | Panic _ _ => False
  end.
Proof.
  cbv zeta.
  pose proof (Tick_result
    (Scenario.timer_with (Scenario.clock_at 25)
       (Scenario.replacing (mkSetting true (mkTime 100) 100))
       (mkSetting true (mkTime 10) 10))
    eq_refl ltac:(vm_compute; discriminate)) as H.
  hnf in H. rewrite H.
  vm_compute. repeat split.
Defined.

Section EngineLifecycle.

Context {W : Type}.

(** X23: [SetClock] installs the setting as it is given, without
    advancing it and without calling the listener, whatever the pause
    state; if the clock is another one it unregisters from the old clock
    and registers with the new one, in that order, and drops the error of
    the registration; then it arms the kicker by the new clock if the
    setting is enabled.  It panics only for an enabled setting on a timer
    without a kicker. *)
Theorem SetClock_result (m : @Machine W) (c : Clock) (s : Setting) :
  Enabled s = false \/ kicker (timer m) <> None ->
  let t := timer m in
  let same := Nat.eqb (clock_id (clock t)) (clock_id c) in
  let sampled := if Enabled s then Now c (world m) else (ZeroTime, world m) in
  let w1 :=
    if same then snd sampled
    else snd (EventRegister c (EventUnregister (clock t) (snd sampled))) in
  let c' := if same then clock t else c in
  let k := WallTimeUntil c' (Next s) (fst sampled) w1 in
  SetClock c s m =
  Done tt
    (mkMachine
       (mkTimer c' (listener t) s (pauseState t)
          (if Enabled s then Some (Some (fst k)) else kicker t) (events t))
       (if Enabled s then snd k else w1)
       (trace m
        ++ (if same then []
            else [EvUnregister (clock_id (clock t)); EvRegister (clock_id c)])
        ++ (if Enabled s then [EvKickerReset (fst k)] else []))).
Proof.
  intros Hok. cbv zeta.
  destruct m as [[c0 l s0 p k ev] w tr]. cbn in Hok.
  destruct s as [[] next per]; cbn [Enabled] in *.
  - destruct Hok as [Hok | Hok]; [discriminate |].
    destruct k as [k |]; [| contradiction].
    engine_unfold. cbn. destruct (Now c w) as [now w0]. cbn.
    destruct (Nat.eqb (clock_id c0) (clock_id c)); cbn.
    + destruct (WallTimeUntil c0 next now w0) as [d w2]. cbn.
      rewrite <- ?app_assoc, ?app_nil_r. reflexivity.
    + destruct (EventRegister c (EventUnregister c0 w0)) as [err w1]. cbn.
      destruct (WallTimeUntil c next now w1) as [d w2]. cbn.
      rewrite <- ?app_assoc, ?app_nil_r. reflexivity.
  - engine_unfold. cbn.
    destruct (Nat.eqb (clock_id c0) (clock_id c)); cbn.
    + rewrite ?app_nil_r. reflexivity.
    + destruct (EventRegister c (EventUnregister c0 w)) as [err w1]. cbn.
      rewrite <- ?app_assoc, ?app_nil_r. reflexivity.
Qed.

(** X24: [NewTimer] returns a timer that is unpaused, stopped (the zero
    setting) and initialised, with the kicker armed at once, after it has
    registered with the clock and started the goroutine; it panics exactly
    when the clock refuses the registration. *)
Theorem NewTimer_result (c : @Clock W) (l : Listener) (w : W) :
  (fst (EventRegister c w) = None ->
   NewTimer c l w =
   Done tt
     (mkMachine
        (mkTimer c l Setting_zero timerUnpaused (Some (Some 0)) chan_open)
        (snd (EventRegister c w))
        [EvRegister (clock_id c); EvGo])) /\
  (fst (EventRegister c w) <> None ->
   exists msg m, NewTimer c l w = Panic msg m) /\
  initialised (timer (machine_of (NewTimer c l w))).
Proof.
  unfold NewTimer. engine_unfold. cbn.
  destruct (EventRegister c w) as [[e |] w1]; cbn;
    repeat split; try discriminate; try congruence; eauto.
Qed.

(** Every call but Destroy keeps a timer initialised. *)
Lemma initialised_call (c : Call) (m : @Machine W) :
  is_Destroy c = false ->
  initialised (timer m) -> initialised (timer (machine_of (call c m))).
Proof.
  intros Hc [Hk He]. destruct m as [[c0 l s0 p k ev] w tr].
  cbn in Hk, He. subst ev. destruct k as [k |]; [| contradiction].
  unfold initialised.
  destruct c as [| | s | s [g |] | | | | c s]; try discriminate; cbn [call];
    engine_run; split; (discriminate || reflexivity).
Qed.

(** X25: a timer that is initialised stays so through every sequence of
    calls without Destroy, whether or not one of them panics: the kicker
    is never dropped and the channel of events never closed. *)
Theorem initialised_invariant (cs : list Call) (m : @Machine W) :
  forallb (fun c => negb (is_Destroy c)) cs = true ->
  initialised (timer m) ->
  initialised (timer (machine_of (calls cs m))).
Proof.
  revert m. induction cs as [| c cs IH]; intros m Hcs Hinit; [exact Hinit |].
  cbn in Hcs. apply andb_prop in Hcs as [Hc Hcs].
  apply negb_true_iff in Hc.
  cbn [calls]. unfold bind.
  pose proof (initialised_call c m Hc Hinit) as Hstep.
  destruct (call c m) as [[] m' | msg m']; cbn in Hstep |- *.
  - now apply IH.
  - exact Hstep.
Qed.

(** X26: Destroy on an initialised timer returns: it disables the
    setting, stops the kicker, unregisters from the clock and closes the
    channel of events, in that order.  A second Destroy stops the kicker and
    unregisters once more and then panics on the closed channel. *)
Theorem Destroy_teardown (m : @Machine W) :
  initialised (timer m) ->
  let t := timer m in
  let m1 :=
    mkMachine
      (mkTimer (clock t) (listener t) (set_Enabled false (setting t))
         timerDestroyed (Some None) chan_closed)
      (EventUnregister (clock t) (world m))
      (trace m ++ [EvKickerStop; EvUnregister (clock_id (clock t)); EvClose]) in
  Destroy m = Done tt m1 /\
  Destroy m1 =
  Panic "close of closed channel"
    (mkMachine (timer m1) (EventUnregister (clock t) (world m1))
       (trace m1 ++ [EvKickerStop; EvUnregister (clock_id (clock t))])).
Proof.
  intros [Hk He]. cbv zeta. destruct m as [[c l s p k ev] w tr].
  cbn in Hk, He. subst ev. destruct k as [k |]; [| contradiction].
  split; engine_unfold; cbn; rewrite <- ?app_assoc; reflexivity.
Qed.

(** X27: Pause and then Resume on a running initialised timer keeps the
    setting, the clock and the registration: the kicker is stopped and then
    armed to fire at once, nothing is registered again and the listener is
    not called. *)
Theorem Pause_then_Resume (m : @Machine W) :
  initialised (timer m) -> pauseState (timer m) = timerUnpaused ->
  let t := timer m in
  bind Pause (fun _ => Resume) m =
  Done tt
    (mkMachine
       (mkTimer (clock t) (listener t) (setting t) timerUnpaused
          (Some (Some 0)) (events t))
       (world m)
       (trace m ++ [EvKickerStop; EvKickerReset 0])).
Proof.
  intros [Hk He] Hp. cbv zeta. destruct m as [[c l s p k ev] w tr].
  cbn in Hk, He, Hp. subst ev p. destruct k as [k |]; [| contradiction].
  engine_unfold. cbn. rewrite <- ?app_assoc. reflexivity.
Qed.

(** X28: Resume on a paused timer that was never initialised (restored and
    not yet resumed) initialises it: it registers with the clock, starts
    the goroutine and arms the kicker to fire at once; if the clock refuses
    the registration it panics, the timer being unpaused already. *)
Theorem Resume_initialises (m : @Machine W) :
  pauseState (timer m) = timerPaused -> kicker (timer m) = None ->
  let t := timer m in
  let r := EventRegister (clock t) (world m) in
  match fst r with
  | None =>
      Resume m =
      Done tt
        (mkMachine
           (mkTimer (clock t) (listener t) (setting t) timerUnpaused
              (Some (Some 0)) chan_open)
           (snd r)
           (trace m ++ [EvRegister (clock_id (clock t)); EvGo; EvKickerReset 0]))
  | Some _ =>
      exists msg m',
        Resume m = Panic msg m' /\ pauseState (timer m') = timerUnpaused
  end.
Proof.
  intros Hp Hk. cbv zeta. destruct m as [[c l s p k ev] w tr].
  cbn in Hp, Hk. subst p k.
  engine_unfold. cbn.
  destruct (EventRegister c w) as [[e |] w1]; cbn.
  - eauto.
  - rewrite <- ?app_assoc. reflexivity.
Qed.

(** X29: a [ChannelNotifier] never replaces the setting, and on a channel
    of capacity one it sends once: a notification that finds the channel
    full leaves the world as it is. *)
Theorem ChannelNotifier_coalesces (full : W -> bool) (send : W -> W)
  (exp1 exp2 : Z) (s1 s2 : Setting) (w : W) :
  (forall w0, full (send w0) = true) ->
  let l := ChannelNotifier full send in
  let r1 := NotifyTimer l exp1 s1 w in
  let r2 := NotifyTimer l exp2 s2 (snd r1) in
  snd (fst r1) = false /\ snd (fst r2) = false /\
  full (snd r1) = true /\ snd r2 = snd r1.
Proof.
  intros Hfull. cbv zeta. cbn.
  destruct (full w) eqn:Hw; cbn.
  - rewrite Hw. auto.
  - rewrite Hfull. auto.
Qed.

End EngineLifecycle.

Lemma SetClock_result_witness :
  let m := Scenario.timer_with (Scenario.clock_at 35) Scenario.keeping
             (mkSetting true (mkTime 10) 10) in
  match SetClock (mkClock 1%nat (fun w => (mkTime 5, w))
                    WallRateClock_WallTimeUntil NoClockEvents_EventRegister
                    NoClockEvents_EventUnregister)
          (mkSetting true (mkTime 2) 0) m with
  | Done _ m' =>
      setting (timer m') = mkSetting true (mkTime 2) 0 /\
      clock_id (clock (timer m')) = 1%nat /\
      kicker (timer m') = Some (Some (-3)) /\
      notifications (trace m') = [] /\
      trace m' = trace m ++ [EvUnregister 0; EvRegister 1; EvKickerReset (-3)]
  | Panic _ _ => False
  end.
Proof.
  cbv zeta.
  pose proof (SetClock_result
    (Scenario.timer_with (Scenario.clock_at 35) Scenario.keeping
       (mkSetting true (mkTime 10) 10))
    (mkClock 1%nat (fun w => (mkTime 5, w))
       WallRateClock_WallTimeUntil NoClockEvents_EventRegister
       NoClockEvents_EventUnregister)
    (mkSetting true (mkTime 2) 0)
    ltac:(right; vm_compute; discriminate)) as H.
  hnf in H. rewrite H.
  vm_compute. repeat split.
Defined.

Lemma initialised_invariant_witness :
  let m := Scenario.timer_with (Scenario.clock_at 35) Scenario.keeping
             (mkSetting true (mkTime 10) 10) in
  initialised
    (timer (machine_of
       (calls [CallTick; CallPause; CallGet; CallResume; CallSwap Setting_zero] m))).
Proof.
  cbv zeta. apply initialised_invariant; [reflexivity |].
  split; [vm_compute; discriminate | reflexivity].
Defined.

Lemma Destroy_teardown_witness :
  let m := Scenario.timer_with (Scenario.clock_at 35) Scenario.keeping
             (mkSetting true (mkTime 10) 10) in
  (exists m1, Destroy m = Done tt m1 /\ events (timer m1) = chan_closed) /\
  (exists m2, bind Destroy (fun _ => Destroy) m =
              Panic "close of closed channel" m2).
Proof.
  cbv zeta.
  destruct (Destroy_teardown
    (Scenario.timer_with (Scenario.clock_at 35) Scenario.keeping
       (mkSetting true (mkTime 10) 10))
    ltac:(split; [vm_compute; discriminate | reflexivity])) as [H1 H2].
  split.
  - eexists. split; [exact H1 | reflexivity].
  - eexists. unfold bind. rewrite H1. exact H2.
Defined.

Lemma Pause_then_Resume_witness :
  let m := Scenario.timer_with (Scenario.clock_at 35) Scenario.keeping
             (mkSetting true (mkTime 10) 10) in
  match bind Pause (fun _ => Resume) m with
  | Done _ m' =>
      setting (timer m') = mkSetting true (mkTime 10) 10 /\
      pauseState (timer m') = timerUnpaused /\
      kicker (timer m') = Some (Some 0)
  | Panic _ _ => False
  end.
Proof.
  cbv zeta.
  pose proof (Pause_then_Resume
    (Scenario.timer_with (Scenario.clock_at 35) Scenario.keeping
       (mkSetting true (mkTime 10) 10))
    ltac:(split; [vm_compute; discriminate | reflexivity]) eq_refl) as H.
  hnf in H. rewrite H. vm_compute. repeat split.
Defined.

Lemma Resume_initialises_witness :
  let m := mkMachine
             (mkTimer (Scenario.clock_at 35) Scenario.keeping
                (mkSetting true (mkTime 10) 10) timerPaused None chan_nil)
             0%nat [] in
  match Resume m with
  | Done _ m' =>
      initialised (timer m') /\ pauseState (timer m') = timerUnpaused /\
      trace m' = [EvRegister 0; EvGo; EvKickerReset 0]
  | Panic _ _ => False
  end.
Proof.
  cbv zeta.
  pose proof (Resume_initialises
    (mkMachine
       (mkTimer (Scenario.clock_at 35) Scenario.keeping
          (mkSetting true (mkTime 10) 10) timerPaused None chan_nil)
       0%nat []) eq_refl eq_refl) as H.
  hnf in H. rewrite H.
  split; [split; [discriminate | reflexivity] |]. split; reflexivity.
Defined.

Lemma ChannelNotifier_coalesces_witness :
  let l := @ChannelNotifier bool (fun w => w) (fun _ => true) in
  snd (NotifyTimer l 3 Setting_zero false) = true /\
  snd (NotifyTimer l 1 Setting_zero (snd (NotifyTimer l 3 Setting_zero false))) =
    snd (NotifyTimer l 3 Setting_zero false).
Proof.
  cbv zeta.
  destruct (@ChannelNotifier_coalesces bool (fun w => w) (fun _ => true)
              3 1 Setting_zero Setting_zero false (fun _ => eq_refl))
    as [_ [_ [Hfull Hsame]]].
  split; [exact Hfull | exact Hsame].
Defined.
